(** * KAI repository-maintenance agent: the decision loop, verified

    A shallow embedding of the Python sources of the agent
    ([agent_core.py], [evaluator.py], [planner.py], [llm_adapter.py],
    [kai_decision_engine.py], [kai_evolve.py], [kai_maintainer.py])
    and the properties of its decision loop.

    Conventions of the embedding.
    - Python [str] is Rocq [string]; the whitespace and line-boundary
      classes are the ASCII ones.
    - Python [int] is [Z]; Python [float] is idealised as an exact
      rational ([Q]), compared with [==].
    - The local filesystem is a finite map from absolute locations (the
      list of components below the filesystem root) to nodes; symbolic links
      and permissions are not modelled.
    - Code that can raise returns a [result]; [try]/[except Exception] is
      [try_except].
    - A call of [log] is an event of the trace of the run; the log files
      and the audit directory are not part of the modelled filesystem, and
      writing a log line does not fail.
    - What the program cannot control (the sentinel file put down by the
      operator, git and the code host, the test runner and the linter, the
      text-completion service) is an input: a record of answers, indexed by
      the number of earlier calls of the same kind. *)

From Stdlib Require Import ZArith QArith Qabs Lia Ascii String.
From stdpp Require Import gmap strings list fin_maps.

Set Warnings "-register-all".
Local Open Scope string_scope.
Local Open Scope list_scope.

(** ** Exceptions *)

(** The Python exception classes the modelled code can meet. *)
Inductive exn :=
| FileNotFoundError
| FileExistsError
| NotADirectoryError
| IsADirectoryError
| ValueError
| TypeError
| KeyError
| IndexError
| AttributeError
| JSONDecodeError
| CalledProcessError
| OSError
| GithubException.

Inductive result (A : Type) :=
| Ok (a : A)
| Raise (e : exn).
Arguments Ok {A} a.
Arguments Raise {A} e.

(** [try: body  except Exception: handler]. *)
Definition try_except {A} (body : result A) (handler : exn -> result A) : result A :=
  match body with
  | Ok a => Ok a
  | Raise e => handler e
  end.

Definition bind_result {A B} (r : result A) (k : A -> result B) : result B :=
  match r with
  | Ok a => k a
  | Raise e => Raise e
  end.

Definition raises {A} (r : result A) : Prop :=
  match r with
  | Ok _ => False
  | Raise _ => True
  end.

(** ** Python string operations *)

Module PyStr.

Definition code (c : ascii) : N := N_of_ascii c.

(** [str.isspace] on one ASCII character: TAB, LF, VT, FF, CR, the four
    separators FS, GS, RS, US and the blank. *)
Definition is_space (c : ascii) : bool :=
  let n := code c in
  ((9 <=? n) && (n <=? 13) || (28 <=? n) && (n <=? 32))%N.

(** The line boundaries of [str.splitlines]: LF, VT, FF, CR, FS, GS, RS. *)
Definition is_linebreak (c : ascii) : bool :=
  let n := code c in
  ((10 <=? n) && (n <=? 13) || (28 <=? n) && (n <=? 30))%N.

Definition is_empty (s : string) : bool :=
  match s with
  | EmptyString => true
  | String _ _ => false
  end.

Fixpoint lstrip (s : string) : string :=
  match s with
  | EmptyString => EmptyString
  | String c r => if is_space c then lstrip r else s
  end.

Fixpoint rstrip (s : string) : string :=
  match s with
  | EmptyString => EmptyString
  | String c r =>
      let r' := rstrip r in
      if is_space c && is_empty r' then EmptyString else String c r'
  end.

(** [s.strip()] *)
Definition strip (s : string) : string := rstrip (lstrip s).

(** [s.splitlines()]: [cur] is the line being read. A boundary closes the
    line, CR LF counts once, and a last line is kept only when it is not
    empty. *)
Fixpoint splitlines_from (cur : string) (s : string) : list string :=
  match s with
  | EmptyString => if is_empty cur then [] else [cur]
  | String c r =>
      if Ascii.eqb c "013"%char then
        match r with
        | String c' r' =>
            if Ascii.eqb c' "010"%char
            then cur :: splitlines_from EmptyString r'
            else cur :: splitlines_from EmptyString r
        | EmptyString => cur :: splitlines_from EmptyString r
        end
      else if is_linebreak c then cur :: splitlines_from EmptyString r
      else splitlines_from (cur +:+ String c EmptyString) r
  end.

Definition splitlines (s : string) : list string := splitlines_from EmptyString s.

(** [s.startswith(p)] *)
Definition startswith (p s : string) : bool := String.prefix p s.

(** [needle in hay] *)
Fixpoint contains (needle hay : string) : bool :=
  String.prefix needle hay ||
  match hay with
  | EmptyString => false
  | String _ r => contains needle r
  end.

(** [s.split(sep)] for a one-character separator. *)
Fixpoint split_from (sep : ascii) (cur : string) (s : string) : list string :=
  match s with
  | EmptyString => [cur]
  | String c r =>
      if Ascii.eqb c sep then cur :: split_from sep EmptyString r
      else split_from sep (cur +:+ String c EmptyString) r
  end.

Definition split (sep : ascii) (s : string) : list string := split_from sep EmptyString s.

(** [s.split(sep, 1)]: at most one cut. *)
Fixpoint split1_from (sep : ascii) (cur : string) (s : string) : list string :=
  match s with
  | EmptyString => [cur]
  | String c r =>
      if Ascii.eqb c sep then [cur; r]
      else split1_from sep (cur +:+ String c EmptyString) r
  end.

Definition split1 (sep : ascii) (s : string) : list string := split1_from sep EmptyString s.

(** [s.lower()] on ASCII letters. *)
Definition lower_char (c : ascii) : ascii :=
  let n := code c in
  if ((65 <=? n) && (n <=? 90))%N then ascii_of_N (n + 32) else c.

Fixpoint lower (s : string) : string :=
  match s with
  | EmptyString => EmptyString
  | String c r => String (lower_char c) (lower r)
  end.

(** The line feed. *)
Definition nl : string := String "010" EmptyString.

(** Truthiness of a string: the empty string is false. *)
Definition truthy (s : string) : bool := negb (is_empty s).

End PyStr.

(** ** Scores and deltas *)

Module Score.
Local Open Scope Q_scope.

(** [agent_core.compute_score] *)
Definition compute_score (tests_ok : bool) (lint_count : Z) : Z :=
  ((if tests_ok then 100 else 0) - lint_count)%Z.

(** The delta computed in the candidate loop of [agent_core.process_repo]:
    [delta = 0.0], overwritten when [score_b != 0] or when
    [score_a > 0]. *)
Definition loop_delta (score_b score_a : Z) : Q :=
  if negb (score_b =? 0)%Z then
    inject_Z (score_a - score_b) / inject_Z (Z.abs score_b) * 100
  else if (score_a >? 0)%Z then 100
  else 0.

(** [kai_decision_engine.quality_score], with its inner [tests_score]. *)
Definition tests_score (ok : bool) : Q := if ok then 1 else 0.

Definition quality_score (tests_ok_before : bool) (lint_before : Z)
                         (tests_ok_after : bool) (lint_after : Z) : Q :=
  let before := tests_score tests_ok_before * 100 - inject_Z lint_before in
  let after := tests_score tests_ok_after * 100 - inject_Z lint_after in
  if Qeq_bool before 0 then
    if Qlt_le_dec 0 after then 100 else 0
  else (after - before) / Qabs before * 100.

(** The score and the delta as the specification words them. *)
Definition spec_score (tests_passed : bool) (lint_issue_count : Z) : Q :=
  (if tests_passed then 100 else 0) - inject_Z lint_issue_count.

Definition spec_delta (before after : Q) : Q :=
  if Qeq_bool before 0 then
    if Qlt_le_dec 0 after then 100 else 0
  else (after - before) / Qabs before * 100.

End Score.

(** ** The filesystem and [pathlib] *)

Inductive node :=
| Dir
| File (content : string).

Global Instance node_eq_dec : EqDecision node.
Proof. solve_decision. Defined.

(** The filesystem: absolute location [-> ] node. *)
Abbreviation FS := (gmap (list string) node).

(** An operation on the filesystem that can raise; what it changed before
    raising stays changed. *)
Definition io (A : Type) : Type := FS -> FS * result A.

Module Posix.

(** A [pathlib.PurePosixPath]: whether it starts at the root, and its
    components. Empty components and [.] are dropped when the path is
    built, [..] is kept. *)
Record ppath := { anchored : bool; parts : list string }.

Definition path_of (s : string) : ppath :=
  {| anchored := PyStr.startswith "/" s;
     parts := filter (fun c => c <> "" /\ c <> ".") (PyStr.split "/" s) |}.

(** [p / q] *)
Definition joinpath (p q : ppath) : ppath :=
  if anchored q then q
  else {| anchored := anchored p; parts := parts p ++ parts q |}.

(** [p.parent] *)
Definition parent (p : ppath) : ppath :=
  {| anchored := anchored p; parts := removelast (parts p) |}.

(** A path with a NUL character is refused by every system call. *)
Definition has_nul (p : ppath) : bool :=
  existsb (PyStr.contains (String "000" EmptyString)) (parts p).

(** Where the kernel starts to resolve [p]. *)
Definition origin (cwd : list string) (p : ppath) : list string :=
  if anchored p then [] else cwd.

(** Resolution of a directory path, one component at a time from
    directory [d]: a name must be an existing directory, [..] goes up. *)
Fixpoint walk (fs : FS) (d : list string) (comps : list string) : result (list string) :=
  match comps with
  | [] => Ok d
  | c :: cs =>
      if decide (c = "..") then walk fs (removelast d) cs
      else match fs !! (d ++ [c]) with
           | Some Dir => walk fs (d ++ [c]) cs
           | Some (File _) => Raise NotADirectoryError
           | None => Raise FileNotFoundError
           end
  end.

(** What [os.stat] finds at [p]. *)
Definition stat (cwd : list string) (p : ppath) (fs : FS) : result node :=
  if has_nul p then Raise ValueError
  else
    bind_result (walk fs (origin cwd p) (removelast (parts p))) (fun d =>
      match last (parts p) with
      | None => Ok Dir
      | Some n =>
          if decide (n = "..") then Ok Dir
          else match fs !! (d ++ [n]) with
               | Some x => Ok x
               | None => Raise FileNotFoundError
               end
      end).

(** [p.exists()]: a path that cannot be resolved does not exist. *)
Definition exists_ (cwd : list string) (p : ppath) (fs : FS) : bool :=
  match stat cwd p fs with
  | Ok _ => true
  | Raise _ => false
  end.

(** [p.read_text(encoding="utf-8")] *)
Definition read_text (cwd : list string) (p : ppath) (fs : FS) : result string :=
  bind_result (stat cwd p fs) (fun x =>
    match x with
    | File content => Ok content
    | Dir => Raise IsADirectoryError
    end).

(** [p.write_text(content, encoding="utf-8")]: the directory of [p] must
    exist; the file is created or replaced. *)
Definition write_text (cwd : list string) (p : ppath) (content : string) : io unit :=
  fun fs =>
    if has_nul p then (fs, Raise ValueError)
    else
      match walk fs (origin cwd p) (removelast (parts p)) with
      | Raise e => (fs, Raise e)
      | Ok d =>
          match last (parts p) with
          | None => (fs, Raise IsADirectoryError)
          | Some n =>
              if decide (n = "..") then (fs, Raise IsADirectoryError)
              else match fs !! (d ++ [n]) with
                   | Some Dir => (fs, Raise IsADirectoryError)
                   | _ => (<[d ++ [n] := File content]> fs, Ok tt)
                   end
          end
      end.

(** The directories [p.mkdir(parents=True, exist_ok=True)] goes through
    and creates, from directory [d]: a missing name is created, an
    existing directory is entered, a file in the way raises. *)
Fixpoint makedirs (fs : FS) (d : list string) (comps : list string) : FS * result (list string) :=
  match comps with
  | [] => (fs, Ok d)
  | c :: cs =>
      if decide (c = "..") then makedirs fs (removelast d) cs
      else match fs !! (d ++ [c]) with
           | Some Dir => makedirs fs (d ++ [c]) cs
           | Some (File _) =>
               (fs, Raise (match cs with [] => FileExistsError | _ => NotADirectoryError end))
           | None => makedirs (<[d ++ [c] := Dir]> fs) (d ++ [c]) cs
           end
  end.

(** [p.mkdir(parents=True, exist_ok=True)] *)
Definition mkdir_parents (cwd : list string) (p : ppath) : io unit :=
  fun fs =>
    if has_nul p then (fs, Raise ValueError)
    else
      let '(fs', r) := makedirs fs (origin cwd p) (parts p) in
      (fs', bind_result r (fun _ => Ok tt)).

(** Where [p] lies when its directories exist: [walk] without the
    checks. *)
Definition step (d : list string) (c : string) : list string :=
  if decide (c = "..") then removelast d else d ++ [c].

Definition locate (cwd : list string) (p : ppath) : list string :=
  fold_left step (parts p) (origin cwd p).

(** [shutil.rmtree(p, ignore_errors=True)]: a directory goes with all
    that is below it; anything else is an error, which is ignored. *)
Definition rmtree (cwd : list string) (p : ppath) (fs : FS) : FS :=
  match stat cwd p fs with
  | Ok Dir => filter (fun kv => ~ (locate cwd p `prefix_of` kv.1)) fs
  | _ => fs
  end.

(** The part of the filesystem at and below location [root]. *)
Definition subtree (root : list string) (fs : FS) : FS :=
  filter (fun kv => root `prefix_of` kv.1) fs.

End Posix.

(** ** JSON values and [json.loads] *)

(** What [json.loads] returns. A number keeps its literal; an object keeps
    its members in the order of the text (a Python [dict] reads the last
    member of a repeated key, see [dict_get]). *)
Inductive json :=
| JNull
| JBool (b : bool)
| JNum (literal : string)
| JStr (s : string)
| JArr (items : list json)
| JObj (members : list (string * json)).

Module Json.

Inductive token :=
| TLBracket | TRBracket | TLBrace | TRBrace | TComma | TColon
| TString (s : string)
| TAtom (a : string).

(** *** Numbers: an optional minus; a zero, or a digit from 1 to 9 and
    more digits; an optional dot with digits; an optional exponent (e or
    E, an optional sign, digits). *)

Inductive nstate := NStart | NMinus | NZero | NInt | NDot | NFrac | NExp | NExpSign | NExpDigits.

Definition is_digit (c : ascii) : bool :=
  let n := PyStr.code c in ((48 <=? n) && (n <=? 57))%N.

Definition nstep (st : nstate) (c : ascii) : option nstate :=
  let n := PyStr.code c in
  let digit := is_digit c in
  let e := ((n =? 101) || (n =? 69))%N in
  match st with
  | NStart => if (n =? 45)%N then Some NMinus
              else if (n =? 48)%N then Some NZero
              else if digit then Some NInt else None
  | NMinus => if (n =? 48)%N then Some NZero
              else if digit then Some NInt else None
  | NZero => if (n =? 46)%N then Some NDot
             else if e then Some NExp else None
  | NInt => if digit then Some NInt
            else if (n =? 46)%N then Some NDot
            else if e then Some NExp else None
  | NDot => if digit then Some NFrac else None
  | NFrac => if digit then Some NFrac
             else if e then Some NExp else None
  | NExp => if digit then Some NExpDigits
            else if ((n =? 43) || (n =? 45))%N then Some NExpSign else None
  | NExpSign => if digit then Some NExpDigits else None
  | NExpDigits => if digit then Some NExpDigits else None
  end.

Fixpoint nrun (st : nstate) (s : string) : bool :=
  match s with
  | EmptyString =>
      match st with
      | NZero | NInt | NFrac | NExpDigits => true
      | _ => false
      end
  | String c r =>
      match nstep st c with
      | Some st' => nrun st' r
      | None => false
      end
  end.

Definition is_number (a : string) : bool := nrun NStart a.

(** The value of an atom: a number, or one of the constants the decoder
    knows. *)
Definition atom_value (a : string) : option json :=
  if is_number a then Some (JNum a)
  else if String.eqb a "true" then Some (JBool true)
  else if String.eqb a "false" then Some (JBool false)
  else if String.eqb a "null" then Some JNull
  else if String.eqb a "NaN" || String.eqb a "Infinity" || String.eqb a "-Infinity"
       then Some (JNum a)
  else None.

(** *** The scanner *)

Definition hex_value (c : ascii) : option N :=
  let n := PyStr.code c in
  if is_digit c then Some (n - 48)%N
  else if ((97 <=? n) && (n <=? 102))%N then Some (n - 87)%N
  else if ((65 <=? n) && (n <=? 70))%N then Some (n - 55)%N
  else None.

(** The UTF-8 bytes of the code point of a [\uXXXX] escape. *)
Definition utf8 (n : N) : string :=
  let byte k := String (ascii_of_N k) EmptyString in
  (if n <? 128 then byte n
   else if n <? 2048 then byte (192 + n / 64) +:+ byte (128 + n mod 64)
   else byte (224 + n / 4096) +:+ byte (128 + (n / 64) mod 64) +:+ byte (128 + n mod 64))%N.

Definition unescape (c : ascii) : option string :=
  let n := PyStr.code c in
  let one k := Some (String (ascii_of_N k) EmptyString) in
  (if (n =? 34) || (n =? 92) || (n =? 47) then one n
   else if n =? 98 then one 8
   else if n =? 102 then one 12
   else if n =? 110 then one 10
   else if n =? 114 then one 13
   else if n =? 116 then one 9
   else None)%N.

Definition is_atom_char (c : ascii) : bool :=
  let n := PyStr.code c in
  (is_digit c || (65 <=? n) && (n <=? 90) || (97 <=? n) && (n <=? 122)
   || (n =? 43) || (n =? 45) || (n =? 46))%N.

(** JSON white space: blank, TAB, LF, CR. *)
Definition is_ws (c : ascii) : bool :=
  let n := PyStr.code c in
  ((n =? 32) || (n =? 9) || (n =? 10) || (n =? 13))%N.

Definition punct (c : ascii) : option token :=
  let n := PyStr.code c in
  (if n =? 91 then Some TLBracket
   else if n =? 93 then Some TRBracket
   else if n =? 123 then Some TLBrace
   else if n =? 125 then Some TRBrace
   else if n =? 44 then Some TComma
   else if n =? 58 then Some TColon
   else None)%N.

Inductive mode :=
| MDefault
| MAtom (acc : string)
| MString (acc : string)
| MEscape (acc : string)
| MHex (acc : string) (digits : list N).

(** One character of the text: the new mode and the tokens completed, or
    [None] when the character cannot stand there. *)
Definition scan_default (c : ascii) : option (mode * list token) :=
  if is_ws c then Some (MDefault, [])
  else if (PyStr.code c =? 34)%N then Some (MString EmptyString, [])
  else if is_atom_char c then Some (MAtom (String c EmptyString), [])
  else match punct c with
       | Some t => Some (MDefault, [t])
       | None => None
       end.

Definition scan_step (m : mode) (c : ascii) : option (mode * list token) :=
  let n := PyStr.code c in
  match m with
  | MDefault => scan_default c
  | MAtom acc =>
      if is_atom_char c then Some (MAtom (acc +:+ String c EmptyString), [])
      else match scan_default c with
           | Some (m', ts) => Some (m', TAtom acc :: ts)
           | None => None
           end
  | MString acc =>
      if (n =? 34)%N then Some (MDefault, [TString acc])
      else if (n =? 92)%N then Some (MEscape acc, [])
      else if (n <? 32)%N then None
      else Some (MString (acc +:+ String c EmptyString), [])
  | MEscape acc =>
      if (n =? 117)%N then Some (MHex acc [], [])
      else match unescape c with
           | Some s => Some (MString (acc +:+ s), [])
           | None => None
           end
  | MHex acc digits =>
      match hex_value c with
      | None => None
      | Some d =>
          match digits with
          | [d1; d2; d3] =>
              Some (MString (acc +:+ utf8 (((d1 * 16 + d2) * 16 + d3) * 16 + d)%N), [])
          | _ => Some (MHex acc (digits ++ [d]), [])
          end
      end
  end.

Fixpoint scan (m : mode) (s : string) : option (list token) :=
  match s with
  | EmptyString =>
      match m with
      | MDefault => Some []
      | MAtom acc => Some [TAtom acc]
      | _ => None
      end
  | String c r =>
      match scan_step m c with
      | None => None
      | Some (m', ts) =>
          match scan m' r with
          | None => None
          | Some ts' => Some (ts ++ ts')
          end
      end
  end.

(** *** The parser: a stack of the containers that are open *)

Inductive frame :=
| FArr (items : list json)                          (* items read, last first *)
| FObj (members : list (string * json))             (* members read, last first *)
| FMember (members : list (string * json)) (key : string).  (* a key waits for its value *)

Inductive expect :=
| EValue          (* a value *)
| EValueOrClose   (* just after [[]: a value or []] *)
| EKeyOrClose     (* just after [{]: a key or [}] *)
| EKey            (* after a comma in an object *)
| EColon
| EAfter          (* after a value in a container: a comma or the close *)
| EDone (v : json).  (* the text is one complete value *)

Definition completed (v : json) (stack : list frame) : option (list frame * expect) :=
  match stack with
  | [] => Some ([], EDone v)
  | FArr items :: rest => Some (FArr (v :: items) :: rest, EAfter)
  | FMember members key :: rest => Some (FObj ((key, v) :: members) :: rest, EAfter)
  | FObj _ :: _ => None
  end.

Definition open_value (t : token) (stack : list frame) : option (list frame * expect) :=
  match t with
  | TString s => completed (JStr s) stack
  | TAtom a =>
      match atom_value a with
      | Some v => completed v stack
      | None => None
      end
  | TLBracket => Some (FArr [] :: stack, EValueOrClose)
  | TLBrace => Some (FObj [] :: stack, EKeyOrClose)
  | _ => None
  end.

Definition parse_step (st : list frame * expect) (t : token) : option (list frame * expect) :=
  let '(stack, e) := st in
  match e, t, stack with
  | EValue, _, _ => open_value t stack
  | EValueOrClose, TRBracket, FArr items :: rest => completed (JArr (rev items)) rest
  | EValueOrClose, _, _ => open_value t stack
  | EKeyOrClose, TRBrace, FObj members :: rest => completed (JObj (rev members)) rest
  | EKeyOrClose, TString k, FObj members :: rest => Some (FMember members k :: rest, EColon)
  | EKey, TString k, FObj members :: rest => Some (FMember members k :: rest, EColon)
  | EColon, TColon, _ => Some (stack, EValue)
  | EAfter, TComma, FArr _ :: _ => Some (stack, EValue)
  | EAfter, TRBracket, FArr items :: rest => completed (JArr (rev items)) rest
  | EAfter, TComma, FObj _ :: _ => Some (stack, EKey)
  | EAfter, TRBrace, FObj members :: rest => completed (JObj (rev members)) rest
  | _, _, _ => None
  end.

Fixpoint parse (st : list frame * expect) (ts : list token) : option json :=
  match ts with
  | [] =>
      match snd st with
      | EDone v => Some v
      | _ => None
      end
  | t :: ts' =>
      match parse_step st t with
      | Some st' => parse st' ts'
      | None => None
      end
  end.

(** [json.loads(text)]: the value, or [JSONDecodeError]. *)
Definition loads (text : string) : result json :=
  match scan MDefault text with
  | None => Raise JSONDecodeError
  | Some ts =>
      match parse ([], EValue) ts with
      | Some v => Ok v
      | None => Raise JSONDecodeError
      end
  end.

(** *** Reading a decoded value from Python *)

(** [d[key]] on a [dict]: the last member of that key. *)
Fixpoint dict_get (key : string) (members : list (string * json)) : option json :=
  match members with
  | [] => None
  | (k, v) :: rest =>
      match dict_get key rest with
      | Some v' => Some v'
      | None => if String.eqb k key then Some v else None
      end
  end.

(** The keys of a [dict], each once, in the order they first came. *)
Fixpoint dict_keys (seen : list string) (members : list (string * json)) : list string :=
  match members with
  | [] => []
  | (k, _) :: rest =>
      if bool_decide (k ∈ seen) then dict_keys seen rest
      else k :: dict_keys (k :: seen) rest
  end.

(** The characters of a [str], one string each. *)
Fixpoint chars (s : string) : list string :=
  match s with
  | EmptyString => []
  | String c r => String c EmptyString :: chars r
  end.

(** [candidate[key]]: indexing by a string works on a [dict] that has
    the key; a missing key is [KeyError], anything but a [dict] is
    [TypeError]. *)
Definition subscript (v : json) (key : string) : result json :=
  match v with
  | JObj members =>
      match dict_get key members with
      | Some x => Ok x
      | None => Raise KeyError
      end
  | _ => Raise TypeError
  end.

(** [len(v)] and [for x in v]: the elements of a list, the characters of
    a string, the keys of a dict; [TypeError] on the rest. *)
Definition iterate (v : json) : result (list json) :=
  match v with
  | JArr items => Ok items
  | JStr s => Ok (JStr <$> chars s)
  | JObj members => Ok (JStr <$> dict_keys [] members)
  | _ => Raise TypeError
  end.

End Json.

(** ** The quality tools *)

(** What [subprocess.run(..., capture_output=True, text=True)] returns. *)
Record completed := { returncode : Z; stdout : string; stderr : string }.

(** The answers of the tools to one assessment of a working copy: running
    a tool either raises (it could not be run) or completes with an exit
    status and its output; writing the raw output to the audit directory
    may raise too. *)
Record tools := {
  run_pytest : result completed;
  write_pytest_output : result unit;
  run_flake8 : result completed;
  write_flake8_output : result unit
}.

Module Evaluator.

(** [compute_quality] of [evaluator.py]. *)
Definition compute_quality (t : tools) (cwd : list string) (repo_dir : Posix.ppath)
                           (fs : FS) : result (bool * Z) :=
  (* run pytest if exists *)
  bind_result
    (try_except
       (if Posix.exists_ cwd (Posix.joinpath repo_dir (Posix.path_of "tests")) fs
           || Posix.exists_ cwd (Posix.joinpath repo_dir (Posix.path_of "pytest.ini")) fs
        then
          bind_result (run_pytest t) (fun r =>
          bind_result (write_pytest_output t) (fun _ =>
          Ok (returncode r =? 0)%Z))
        else Ok true)
       (fun _ => Ok false))
    (fun tests_ok =>
  (* lint via flake8 *)
  bind_result
    (try_except
       (bind_result (run_flake8 t) (fun r =>
        let lint_out := PyStr.strip (stdout r) in
        let lint_count :=
          if PyStr.truthy lint_out
          then Z.of_nat (length (PyStr.splitlines lint_out))
          else 0%Z in
        bind_result (write_flake8_output t) (fun _ =>
        Ok lint_count)))
       (fun _ => Ok 9999%Z))
    (fun lint_count =>
  Ok (tests_ok, lint_count))).

End Evaluator.

(** ** The planner *)

Module Planner.

(** [propose_candidates] of [planner.py], from the answer [resp] of
    [call_llm]: whatever [json.loads] makes of the answer, and the empty
    list when it raises. *)
Definition propose_candidates (resp : string) : result json :=
  try_except (Json.loads resp) (fun _ => Ok (JArr [])).

(** The answer of [call_llm] when no backend can be reached. *)
Definition LLM_UNAVAILABLE : string := "LLM_UNAVAILABLE".




End Planner.

(** ** The world around a run *)

(** The recognised options of [agent_config.json], when present. *)
Record config := {
  cfg_improvement_margin : option Q;
  cfg_max_iterations : option Z;
  cfg_kill_switch_file : option string
}.

(** What the code host tells about a repository. *)
Record repo_info := { default_branch : string }.

(** The kinds of calls to the outside; each kind is counted. *)
Inductive call :=
| CSentinel      (* does the sentinel file exist? *)
| CClone         (* git clone *)
| CAssess        (* one run of the quality tools *)
| CArchive       (* shutil.make_archive *)
| CCompletion    (* call_llm *)
| CPull          (* repo.create_pull *)
| CMemory        (* add_memory *)
| CFormat        (* black *)
| CRecord.       (* writing the decision record *)

Global Instance call_eq_dec : EqDecision call.
Proof. solve_decision. Defined.

(** The inputs of a run: the answers of everything the program does not
    control. An answer indexed by [nat] is the answer to the n-th call of
    its kind, counted from 0. *)
Record env := {
  cwd : list string;                     (* the current directory *)
  environ : gmap string string;          (* os.environ *)
  agent_config : result config;          (* loading agent_config.json *)
  sentinel : nat -> bool;                (* the sentinel file exists *)
  get_repo : string -> result repo_info; (* gh.get_repo(full) *)
  git_clone : nat -> option FS;          (* the tree cloned, or failure *)
  assess : nat -> FS -> tools;           (* the tools on a filesystem *)
  make_archive : nat -> result unit;
  completion : nat -> string;            (* the text call_llm returns *)
  create_pull : nat -> result Z;         (* the pull request number *)
  add_memory : nat -> result unit;
  black : nat -> FS -> result FS;        (* the formatter *)
  write_record : nat -> result unit
}.

(** The log lines of [agent_core.py], one constructor for each call of
    [log]. *)
Inductive logline :=
| LogKill                                        (* KILL switch present *)
| LogProcessing (full branch : string)
| LogCloneFailed
| LogBaseline (score_b : Z) (tests_b : bool) (lint_b : Z)
| LogPlanner (n : nat)
| LogCandidateResult (score_a : Z) (delta : Q)
| LogImprovement
| LogCreatedPR (number : Z)
| LogPushFailed (e : exn)
| LogFailedToApply (e : exn)
| LogNoCandidateAccepted (full : string)
| LogErrorProcessRepo (full : string) (e : exn)
| LogMissingToken
| LogNothingToDo
| LogRunFinished
  (* kai_decision_engine.py *)
| LogEngineError (what : string) (e : exn)
| LogEngineNoToken
| LogEngineNoRepos
| LogEngineBaseline (tests_b : bool) (lint_b : Z)
| LogEngineAfter (tests_a : bool) (lint_a : Z)
| LogEngineDelta (delta : Q)
| LogEngineAccept
| LogEngineReject
| LogEngineCreatedPR (number : Z)
| LogEngineRunComplete.

(** What a run does, in order. *)
Inductive event :=
| Logged (l : logline)
| KillChecked (present : bool)                   (* check_kill() *)
| RepoEntered (full : string)                    (* process_repo(full) *)
| CloneRun (ok : bool)                           (* git clone ended *)
| Measured (tests_ok : bool) (lint_count : Z)    (* compute_quality returned *)
| Archived (tag : string)                        (* snapshot written *)
| Applied (cand : json) (before : FS) (ok : bool)  (* apply_candidate, on filesystem [before] *)
| BranchPushed
| PullRequestOpened (number : Z)
| Accepted (cand : json) (delta : Q)             (* accepted = True *)
| Rejected (cand : json) (delta : Q)             (* the rejected diff is saved *)
| Mutated                                        (* the engine's apply_mutations *)
| EngineAccepted (delta : Q)
| EngineRejected (delta : Q).

Record world := {
  fs : FS;
  calls : call -> nat;
  trace : list event
}.

(** How a process ends. *)
Inductive exit :=
| Returned                 (* main returned *)
| SysExit (status : Z)     (* sys.exit(status) *)
| Uncaught (e : exn).      (* an exception left main *)


(** *** Code that changes the world and can raise *)

Definition M (A : Type) : Type := world -> world * result A.

Definition ret {A} (a : A) : M A := fun w => (w, Ok a).

Definition raise {A} (e : exn) : M A := fun w => (w, Raise e).

Definition bind {A B} (m : M A) (k : A -> M B) : M B :=
  fun w =>
    match m w with
    | (w', Ok a) => k a w'
    | (w', Raise e) => (w', Raise e)
    end.

Notation "'let*' x ':=' m 'in' k" := (bind m (fun x => k))
  (at level 10, x name, m at level 100, k at level 200).
Notation "m ';;' k" := (bind m (fun _ => k))
  (at level 100, k at level 200, right associativity).

(** [try: body  except Exception as e: handler e] *)
Definition try_catch {A} (body : M A) (handler : exn -> M A) : M A :=
  fun w =>
    match body w with
    | (w', Ok a) => (w', Ok a)
    | (w', Raise e) => handler e w'
    end.

Definition of_result {A} (r : result A) : M A := fun w => (w, r).

Definition emit (e : event) : M unit :=
  fun w => ({| fs := fs w; calls := calls w; trace := trace w ++ [e] |}, Ok tt).

(** The number of the next call of kind [c]; the call is counted. *)
Definition next (c : call) : M nat :=
  fun w =>
    ({| fs := fs w;
        calls := fun c' => if decide (c = c') then S (calls w c) else calls w c';
        trace := trace w |},
     Ok (calls w c)).

Definition get_fs : M FS := fun w => (w, Ok (fs w)).

Definition set_fs (fs' : FS) : M unit :=
  fun w => ({| fs := fs'; calls := calls w; trace := trace w |}, Ok tt).

Definition lift_io {A} (f : io A) : M A :=
  fun w =>
    let '(fs', r) := f (fs w) in
    ({| fs := fs'; calls := calls w; trace := trace w |}, r).

Definition log (l : logline) : M unit := emit (Logged l).

Definition start (fs0 : FS) : world :=
  {| fs := fs0; calls := fun _ => 0; trace := [] |}.

(** Python's [a or b] on two optional strings, and [not a]. *)
Definition falsy (a : option string) : bool :=
  match a with
  | Some s => negb (PyStr.truthy s)
  | None => true
  end.

Definition py_or (a b : option string) : option string :=
  if falsy a then b else a.

(** [git clone ... <url of full>] run in directory [work]: when it
    succeeds, the tree of the remote stands in the directory named after the
    repository. *)
Definition clone_name (full : string) : string := List.last (PyStr.split "/" full) "".

Definition git_clone_into (E : env) (work : Posix.ppath) (full : string) : M bool :=
  let* n := next CClone in
  match git_clone E n with
  | None => emit (CloneRun false) ;; ret false
  | Some tree =>
      let root := Posix.locate (cwd E) (Posix.joinpath work (Posix.path_of (clone_name full))) in
      let* disk := get_fs in
      set_fs (kmap (fun l => root ++ l) tree ∪ <[root := Dir]> disk) ;;
      emit (CloneRun true) ;;
      ret true
  end.

(** [shutil.rmtree(p, ignore_errors=True)] *)
Definition rmtree (E : env) (p : Posix.ppath) : M unit :=
  let* disk := get_fs in set_fs (Posix.rmtree (cwd E) p disk).

(** The lines of the allowlist that count: stripped, neither blank nor
    starting with [#]. *)
Fixpoint allow_lines (lines : list string) : list string :=
  match lines with
  | [] => []
  | ln :: rest =>
      let s := PyStr.strip ln in
      if negb (PyStr.truthy s) || PyStr.startswith "#" s then allow_lines rest
      else s :: allow_lines rest
  end.

(** ** [agent_core.py] *)

Module AgentCore.

Definition IMPROVEMENT_MARGIN (cfg : config) : Q := default 5%Q (cfg_improvement_margin cfg).
Definition MAX_ITER (cfg : config) : Z := default 10%Z (cfg_max_iterations cfg).
Definition KILL_FILE (cfg : config) : string := default "KILL_KAI" (cfg_kill_switch_file cfg).

Definition check_kill (E : env) : M bool :=
  let* n := next CSentinel in
  emit (KillChecked (sentinel E n)) ;;
  if sentinel E n then log LogKill ;; ret true
  else ret false.

Definition read_allowlist (cwd : list string) (disk : FS) : result (list string) :=
  let p := Posix.path_of "repos.txt" in
  if negb (Posix.exists_ cwd p disk) then Ok []
  else
    bind_result (Posix.read_text cwd p disk) (fun text =>
    Ok (allow_lines (PyStr.splitlines text))).

(** [repo_dir / relpath] needs a string, and so does [write_text]; the
    latter fails after the directories are made. *)
Definition safe_write_file (cwd : list string) (repo_dir : Posix.ppath)
                           (relpath content : json) : io unit :=
  fun disk =>
    match relpath with
    | JStr rel =>
        let target := Posix.joinpath repo_dir (Posix.path_of rel) in
        match Posix.mkdir_parents cwd (Posix.parent target) disk with
        | (disk', Raise e) => (disk', Raise e)
        | (disk', Ok _) =>
            match content with
            | JStr text => Posix.write_text cwd target text disk'
            | _ => (disk', Raise TypeError)
            end
        end
    | _ => (disk, Raise TypeError)
    end.

Definition apply_candidate (cwd : list string) (repo_dir : Posix.ppath)
                           (candidate : json) : M bool :=
  try_catch
    (let* file := of_result (Json.subscript candidate "file") in
     let* new_content := of_result (Json.subscript candidate "new_content") in
     lift_io (safe_write_file cwd repo_dir file new_content) ;;
     ret true)
    (fun e => log (LogFailedToApply e) ;; ret false).

Definition compute_score := Score.compute_score.

(** [compute_quality(repo_dir)], imported from [evaluator.py]. *)
Definition compute_quality (E : env) (repo_dir : Posix.ppath) : M (bool * Z) :=
  let* n := next CAssess in
  let* disk := get_fs in
  let* q := of_result (Evaluator.compute_quality (assess E n disk) (cwd E) repo_dir disk) in
  emit (Measured (fst q) (snd q)) ;;
  ret q.

(** [snapshot(repo_dir, tag)], imported from [evaluator.py]. *)
Definition snapshot (E : env) (tag : string) : M unit :=
  let* n := next CArchive in
  of_result (make_archive E n) ;;
  emit (Archived tag).

Definition work : Posix.ppath := Posix.path_of "_kai_work".

(** [cand.get("reason", ...)] *)
Definition reason_of (cand : json) : result json :=
  match cand with
  | JObj members =>
      Ok (default (JStr "Automated improvement by KaiAgent") (Json.dict_get "reason" members))
  | _ => Raise AttributeError
  end.

(** The body of the [try] of the accepting branch, down to
    [accepted = True]. The git commands are run unchecked. *)
Definition publish (E : env) (cand : json) (delta : Q) : M unit :=
  emit BranchPushed ;;
  let* body := of_result (reason_of cand) in
  let* n := next CPull in
  let* number := of_result (create_pull E n) in
  emit (PullRequestOpened number) ;;
  log (LogCreatedPR number) ;;
  let* k := next CMemory in
  of_result (add_memory E k) ;;
  emit (Accepted cand delta).

(** How the loop over the candidates ends. *)
Inductive loop_exit :=
| Exhausted    (* no candidate left, [accepted] is still false *)
| Broke        (* [accepted = True; break] *)
| Killed.      (* [if check_kill(): return] *)

(** [for cand in candidates: ...] of [process_repo]. *)
Fixpoint candidate_loop (E : env) (cfg : config) (full : string) (repo_dir : Posix.ppath)
                        (score_b : Z) (candidates : list json) : M loop_exit :=
  match candidates with
  | [] => ret Exhausted
  | cand :: rest =>
      let* killed := check_kill E in
      if killed then ret Killed
      else
        let* before := get_fs in
        let* ok := apply_candidate (cwd E) repo_dir cand in
        emit (Applied cand before ok) ;;
        let* q := compute_quality E repo_dir in
        let score_a := compute_score (fst q) (snd q) in
        let delta := Score.loop_delta score_b score_a in
        log (LogCandidateResult score_a delta) ;;
        if Qle_bool (IMPROVEMENT_MARGIN cfg) delta then
          log LogImprovement ;;
          let* published :=
            try_catch (publish E cand delta ;; ret true)
                      (fun e => log (LogPushFailed e) ;; ret false) in
          if published then ret Broke
          else candidate_loop E cfg full repo_dir score_b rest
        else
          (* reject -> save diff *)
          emit (Rejected cand delta) ;;
          (* revert files by re-cloning for next candidate *)
          rmtree E repo_dir ;;
          git_clone_into E work full ;;
          candidate_loop E cfg full repo_dir score_b rest
  end.

(** [full.split("/",1)[1]] *)
Definition repo_name (full : string) : result string :=
  match PyStr.split1 "/" full with
  | [_; n] => Ok n
  | _ => Raise IndexError
  end.

Definition process_repo_body (E : env) (cfg : config) (full : string) : M unit :=
  let* repo := of_result (get_repo E full) in
  let branch := if PyStr.truthy (default_branch repo) then default_branch repo else "master" in
  log (LogProcessing full branch) ;;
  let* disk := get_fs in
  (if Posix.exists_ (cwd E) work disk then rmtree E work else ret tt) ;;
  lift_io (Posix.mkdir_parents (cwd E) work) ;;
  (* clone, checked *)
  let* cloned := git_clone_into E work full in
  if negb cloned then log LogCloneFailed
  else
    let* name := of_result (repo_name full) in
    let repo_dir := Posix.joinpath work (Posix.path_of name) in
    (* baseline *)
    let* qb := compute_quality E repo_dir in
    let score_b := compute_score (fst qb) (snd qb) in
    log (LogBaseline score_b (fst qb) (snd qb)) ;;
    snapshot E "before" ;;
    (* propose candidates: the summary of the repository goes into the
       prompt, and the answer of the backend is an input *)
    let* n := next CCompletion in
    let* candidates := of_result (Planner.propose_candidates (completion E n)) in
    let* items := of_result (Json.iterate candidates) in
    log (LogPlanner (length items)) ;;
    let* out := candidate_loop E cfg full repo_dir score_b items in
    match out with
    | Killed => ret tt
    | _ =>
        snapshot E "after" ;;
        (match out with
         | Broke => ret tt
         | _ => log (LogNoCandidateAccepted full)
         end) ;;
        rmtree E work
    end.

Definition process_repo (E : env) (cfg : config) (full : string) : M unit :=
  emit (RepoEntered full) ;;
  try_catch (process_repo_body E cfg full)
            (fun e => log (LogErrorProcessRepo full e)).

(** [for full in allow: ...] of [main]. *)
Fixpoint repo_loop (E : env) (cfg : config) (allow : list string) : M unit :=
  match allow with
  | [] => ret tt
  | full :: rest =>
      let* killed := check_kill E in
      if killed then ret tt
      else process_repo E cfg full ;; repo_loop E cfg rest
  end.

Definition token (E : env) : option string :=
  py_or (environ E !! "KAI_PAT") (environ E !! "GITHUB_TOKEN").

Definition main (E : env) (cfg : config) : M unit :=
  let* killed := check_kill E in
  if killed then ret tt
  else
    of_result (agent_config E) ;;
    if falsy (token E) then log LogMissingToken
    else
      let* disk := get_fs in
      let* allow := of_result (read_allowlist (cwd E) disk) in
      match allow with
      | [] => log LogNothingToDo
      | _ => repo_loop E cfg allow ;; log LogRunFinished
      end.

(** The program: the module body reads the configuration, then [main]
    runs on the filesystem [disk]. *)
Definition program (E : env) (disk : FS) : world * exit :=
  match agent_config E with
  | Raise e => (start disk, Uncaught e)
  | Ok cfg =>
      match main E cfg (start disk) with
      | (w, Ok _) => (w, Returned)
      | (w, Raise e) => (w, Uncaught e)
      end
  end.

End AgentCore.

(** ** [kai_decision_engine.py] *)

Module DecisionEngine.

Definition IMPROVEMENT_MARGIN : Q := 5%Q.

(** [WORK_DIR = Path.cwd() / "_kai_work"] *)
Definition WORK_DIR (E : env) : Posix.ppath :=
  Posix.joinpath {| Posix.anchored := true; Posix.parts := cwd E |} (Posix.path_of "_kai_work").

Definition read_allowlist (cwd : list string) (disk : FS) : result (list string) :=
  let p := Posix.path_of "repos.txt" in
  if negb (Posix.exists_ cwd p disk) then Ok []
  else
    bind_result (Posix.read_text cwd p disk) (fun text =>
    Ok (allow_lines (PyStr.splitlines text))).

Definition compute_quality (E : env) (repo_dir : Posix.ppath) : M (bool * Z) :=
  let* n := next CAssess in
  let* disk := get_fs in
  let t := assess E n disk in
  (* run pytest if tests exist *)
  let* tests_ok :=
    try_catch
      (if Posix.exists_ (cwd E) (Posix.joinpath repo_dir (Posix.path_of "tests")) disk
          || Posix.exists_ (cwd E) (Posix.joinpath repo_dir (Posix.path_of "pytest.ini")) disk
       then
         let* r := of_result (run_pytest t) in
         of_result (write_pytest_output t) ;;
         ret (returncode r =? 0)%Z
       else ret true)
      (fun e => log (LogEngineError "pytest error" e) ;; ret false) in
  (* run flake8 (count issues) *)
  let* lint_count :=
    try_catch
      (let* r := of_result (run_flake8 t) in
       let lint_out := PyStr.strip (stdout r) in
       let lint_count :=
         if PyStr.truthy lint_out
         then Z.of_nat (length (PyStr.splitlines lint_out))
         else 0%Z in
       of_result (write_flake8_output t) ;;
       ret lint_count)
      (fun e => log (LogEngineError "flake8 error" e) ;; ret 9999%Z) in
  emit (Measured tests_ok lint_count) ;;
  ret (tests_ok, lint_count).

Definition apply_mutations (E : env) : M unit :=
  try_catch
    (let* n := next CFormat in
     let* disk := get_fs in
     let* disk' := of_result (black E n disk) in
     set_fs disk')
    (fun e => log (LogEngineError "black formatting error" e)) ;;
  emit Mutated.

Definition snapshot_repo (E : env) (tag : string) : M unit :=
  try_catch
    (let* n := next CArchive in
     of_result (make_archive E n) ;;
     emit (Archived tag))
    (fun e => log (LogEngineError "Snapshot error" e)).

Definition commit_and_branch_push (E : env) (direct_push : bool) : M (option Z) :=
  if direct_push then emit BranchPushed ;; ret None
  else
    try_catch
      (emit BranchPushed ;;
       let* n := next CPull in
       let* number := of_result (create_pull E n) in
       emit (PullRequestOpened number) ;;
       log (LogEngineCreatedPR number) ;;
       ret (Some number))
      (fun e => log (LogEngineError "Branch/PR creation failed" e) ;; ret None).

Definition quality_score := Score.quality_score.

Definition process_repo_body (E : env) (repo_full : string) (direct_push_env : string) : M unit :=
  let* repo := of_result (get_repo E repo_full) in
  log (LogProcessing repo_full
         (if PyStr.truthy (default_branch repo) then default_branch repo else "master")) ;;
  (* prepare workdir *)
  let* disk := get_fs in
  (if Posix.exists_ (cwd E) (WORK_DIR E) disk then rmtree E (WORK_DIR E) else ret tt) ;;
  lift_io (Posix.mkdir_parents (cwd E) (WORK_DIR E)) ;;
  (* clone *)
  let* cloned := git_clone_into E (WORK_DIR E) repo_full in
  if negb cloned then log LogCloneFailed
  else
    let* name := of_result (AgentCore.repo_name repo_full) in
    let repo_dir := Posix.joinpath (WORK_DIR E) (Posix.path_of name) in
    (* baseline *)
    let* qb := compute_quality E repo_dir in
    log (LogEngineBaseline (fst qb) (snd qb)) ;;
    snapshot_repo E "before" ;;
    (* apply safe mutations *)
    apply_mutations E ;;
    (* after *)
    let* qa := compute_quality E repo_dir in
    log (LogEngineAfter (fst qa) (snd qa)) ;;
    snapshot_repo E "after" ;;
    (* compute delta *)
    let delta_percent := quality_score (fst qb) (snd qb) (fst qa) (snd qa) in
    log (LogEngineDelta delta_percent) ;;
    let direct_push := String.eqb (PyStr.lower direct_push_env) "true" in
    (* decide *)
    (if Qle_bool IMPROVEMENT_MARGIN delta_percent then
       log LogEngineAccept ;;
       emit (EngineAccepted delta_percent) ;;
       let* pr_num := commit_and_branch_push E direct_push in
       (* record artifact *)
       let* n := next CRecord in
       of_result (write_record E n)
     else
       log LogEngineReject ;;
       emit (EngineRejected delta_percent)) ;;
    (* cleanup *)
    rmtree E (WORK_DIR E).

Definition process_repo (E : env) (repo_full : string) (direct_push_env : string) : M unit :=
  emit (RepoEntered repo_full) ;;
  try_catch (process_repo_body E repo_full direct_push_env)
            (fun e => log (LogEngineError "Error processing" e)).

Fixpoint repo_loop (E : env) (direct_env : string) (allow : list string) : M unit :=
  match allow with
  | [] => ret tt
  | repo_full :: rest => process_repo E repo_full direct_env ;; repo_loop E direct_env rest
  end.

Definition token (E : env) : option string :=
  py_or (py_or (environ E !! "KAI_PAT") (environ E !! "GITHUB_TOKEN")) (environ E !! "GITHUB_PAT").

(** [main]: what it returns is how the process ends when nothing is
    raised. *)
Definition main (E : env) : M exit :=
  if falsy (token E) then log LogEngineNoToken ;; ret (SysExit 1)
  else
    let direct_env := default "false" (environ E !! "DIRECT_PUSH") in
    let* disk := get_fs in
    let* allow := of_result (read_allowlist (cwd E) disk) in
    match allow with
    | [] => log LogEngineNoRepos ;; ret Returned
    | _ => repo_loop E direct_env allow ;; log LogEngineRunComplete ;; ret Returned
    end.

Definition program (E : env) (disk : FS) : world * exit :=
  match main E (start disk) with
  | (w, Ok x) => (w, x)
  | (w, Raise e) => (w, Uncaught e)
  end.

End DecisionEngine.

(** ** The safe mutations of [kai_evolve.py] and [kai_maintainer.py] *)

Definition EDITORCONFIG : string :=
  "root = true" +:+ PyStr.nl +:+ PyStr.nl +:+ "[*]" +:+ PyStr.nl
  +:+ "end_of_line = lf" +:+ PyStr.nl +:+ "insert_final_newline = true" +:+ PyStr.nl
  +:+ "charset = utf-8" +:+ PyStr.nl +:+ "trim_trailing_whitespace = true" +:+ PyStr.nl.

Definition badge : string :=
  "[![Maintained by Kai](https://img.shields.io/badge/maintained%20by-Kai-blue)](#)".

Module Evolve.

Definition ensure_editorconfig (cwd : list string) (repo_dir : Posix.ppath) : io unit :=
  fun disk =>
    let ec := Posix.joinpath repo_dir (Posix.path_of ".editorconfig") in
    if negb (Posix.exists_ cwd ec disk) then Posix.write_text cwd ec EDITORCONFIG disk
    else (disk, Ok tt).

Definition ensure_badge (cwd : list string) (repo_dir : Posix.ppath) : io unit :=
  fun disk =>
    let readme := Posix.joinpath repo_dir (Posix.path_of "README.md") in
    if Posix.exists_ cwd readme disk then
      match Posix.read_text cwd readme disk with
      | Raise e => (disk, Raise e)
      | Ok txt =>
          if negb (PyStr.contains "Maintained by Kai" txt)
          then Posix.write_text cwd readme (badge +:+ PyStr.nl +:+ PyStr.nl +:+ txt) disk
          else (disk, Ok tt)
      end
    else Posix.write_text cwd readme ("# Repo" +:+ PyStr.nl +:+ PyStr.nl +:+ badge +:+ PyStr.nl) disk.

End Evolve.

Module Maintainer.

(** [apply_safe_mutations]: the two mutations in one body; an exception
    of the first leaves the second undone. *)
Definition apply_safe_mutations (cwd : list string) (repo_dir : Posix.ppath) : io unit :=
  fun disk =>
    let ec := Posix.joinpath repo_dir (Posix.path_of ".editorconfig") in
    match (if negb (Posix.exists_ cwd ec disk)
           then Posix.write_text cwd ec EDITORCONFIG disk
           else (disk, Ok tt)) with
    | (disk1, Raise e) => (disk1, Raise e)
    | (disk1, Ok _) =>
        let readme := Posix.joinpath repo_dir (Posix.path_of "README.md") in
        if Posix.exists_ cwd readme disk1 then
          match Posix.read_text cwd readme disk1 with
          | Raise e => (disk1, Raise e)
          | Ok txt =>
              if negb (PyStr.contains "Maintained by Kai" txt)
              then Posix.write_text cwd readme (badge +:+ PyStr.nl +:+ PyStr.nl +:+ txt) disk1
              else (disk1, Ok tt)
          end
        else Posix.write_text cwd readme ("# Repo" +:+ PyStr.nl +:+ PyStr.nl +:+ badge +:+ PyStr.nl) disk1
    end.

End Maintainer.

(** * What is observed of a run, and specimen inputs *)

(** ** The quality assessor *)

(** The lint count of a linter that ran: the lines of its stripped
    output. *)
Definition lint_lines (out : string) : Z :=
  let lint_out := PyStr.strip out in
  if PyStr.truthy lint_out then Z.of_nat (length (PyStr.splitlines lint_out)) else 0%Z.

(** The test marker of a working copy. *)
Definition has_tests (cwd : list string) (repo_dir : Posix.ppath) (disk : FS) : bool :=
  Posix.exists_ cwd (Posix.joinpath repo_dir (Posix.path_of "tests")) disk
  || Posix.exists_ cwd (Posix.joinpath repo_dir (Posix.path_of "pytest.ini")) disk.

(** The measurement in terms of the answers of the tools. *)
Definition tests_verdict (t : tools) (marker : bool) : bool :=
  if marker then
    match run_pytest t, write_pytest_output t with
    | Ok r, Ok _ => (returncode r =? 0)%Z
    | _, _ => false
    end
  else true.

Definition lint_verdict (t : tools) : Z :=
  match run_flake8 t, write_flake8_output t with
  | Ok r, Ok _ => lint_lines (stdout r)
  | _, _ => 9999%Z
  end.


(** ** Runs *)

(** The repositories [process_repo] was called on. *)
Fixpoint repos_entered (tr : list event) : list string :=
  match tr with
  | [] => []
  | RepoEntered full :: rest => full :: repos_entered rest
  | _ :: rest => repos_entered rest
  end.


(** Tools that find a clean working copy: no linter output, tests pass. *)
Definition clean_tools : tools :=
  {| run_pytest := Ok {| returncode := 0; stdout := ""; stderr := "" |};
     write_pytest_output := Ok tt;
     run_flake8 := Ok {| returncode := 0; stdout := ""; stderr := "" |};
     write_flake8_output := Ok tt |}.

(** A linter that reports [n] issues, one line each. *)
Fixpoint issue_lines (n : nat) : string :=
  match n with
  | O => ""
  | S k => "a.py:1:1: E501 line too long" +:+ PyStr.nl +:+ issue_lines k
  end.

Definition tools_with_issues (n : nat) : tools :=
  {| run_pytest := Ok {| returncode := 0; stdout := ""; stderr := "" |};
     write_pytest_output := Ok tt;
     run_flake8 := Ok {| returncode := 1; stdout := issue_lines n; stderr := "" |};
     write_flake8_output := Ok tt |}.

(** A quiet world: the directory [/srv/kai], no variable set, the
    configuration file with no option, no sentinel, a code host that knows
    every repository, clones of an empty tree, clean tools, a planner
    backend that is down. *)
Definition quiet : env :=
  {| cwd := ["srv"; "kai"];
     environ := ∅;
     agent_config := Ok {| cfg_improvement_margin := None;
                           cfg_max_iterations := None;
                           cfg_kill_switch_file := None |};
     sentinel := fun _ => false;
     get_repo := fun _ => Ok {| default_branch := "main" |};
     git_clone := fun _ => Some ∅;
     assess := fun _ _ => clean_tools;
     make_archive := fun _ => Ok tt;
     completion := fun _ => Planner.LLM_UNAVAILABLE;
     create_pull := fun n => Ok (Z.of_nat n + 1)%Z;
     add_memory := fun _ => Ok tt;
     black := fun _ disk => Ok disk;
     write_record := fun _ => Ok tt |}.

Definition no_options : config :=
  {| cfg_improvement_margin := None; cfg_max_iterations := None; cfg_kill_switch_file := None |}.

(** The filesystem an operation leaves, whether it raised or not. *)
Definition after {A} (f : io A) (disk : FS) : FS := fst (f disk).

(** ** Where a candidate is written *)


(** A working copy [_kai_work/repo] below [/srv/kai] with one file. *)
Definition specimen_repo_dir : Posix.ppath :=
  Posix.joinpath AgentCore.work (Posix.path_of "repo").

Definition specimen_root : list string := ["srv"; "kai"; "_kai_work"; "repo"].

Definition specimen_tree : FS := {[ ["main.py"] := File "print(1)" ]}.

Definition specimen_disk : FS :=
  {[ ["srv"] := Dir;
     ["srv"; "kai"] := Dir;
     ["srv"; "kai"; "_kai_work"] := Dir;
     ["srv"; "kai"; "_kai_work"; "repo"] := Dir;
     ["srv"; "kai"; "_kai_work"; "repo"; "main.py"] := File "print(1)" ]}.

Definition candidate_record (file new_content reason : string) : json :=
  JObj [("file", JStr file); ("new_content", JStr new_content); ("reason", JStr reason)].


Definition inner_candidate : json :=
  candidate_record "docs/notes.md" "notes" "add notes".

(** ** Observations on a trace *)

(** The events a computation adds to the trace. *)
Definition events_of {A} (m : M A) (w : world) : list event :=
  drop (length (trace w)) (trace (fst (m w))).

Definition is_log (e : event) : bool :=
  match e with
  | Logged _ => true
  | _ => false
  end.

Definition is_accept (e : event) : bool :=
  match e with
  | Accepted _ _ | EngineAccepted _ => true
  | _ => false
  end.


(** Neither a check, nor work on a candidate, nor the start of a
    repository. *)
Definition is_aftermath (e : event) : bool :=
  match e with
  | Logged _ | CloneRun _ | Archived _ | BranchPushed | PullRequestOpened _
  | Rejected _ _ | Mutated | EngineRejected _ => true
  | _ => false
  end.

(** What happens before the first candidate: as the aftermath, and the
    baseline measurement. *)
Definition is_setup (e : event) : bool :=
  match e with
  | Measured _ _ => true
  | _ => is_aftermath e
  end.

(** The number of acceptances. *)
Definition accepts (tr : list event) : nat := length (List.filter is_accept tr).

(** What follows the first event that satisfies [p]. *)
Fixpoint after_first (p : event -> bool) (tr : list event) : list event :=
  match tr with
  | [] => []
  | e :: rest => if p e then rest else after_first p rest
  end.

Definition is_positive_check (e : event) : bool :=
  match e with
  | KillChecked true => true
  | _ => false
  end.


(** The candidates applied, each with the filesystem it was applied on. *)
Fixpoint applications (tr : list event) : list (json * FS) :=
  match tr with
  | [] => []
  | Applied cand before _ :: rest => (cand, before) :: applications rest
  | _ :: rest => applications rest
  end.

(** Every application comes after a check that found no sentinel, with
    nothing but log lines between the two. [armed] says that such a check
    has just been made. *)
Fixpoint guarded (armed : bool) (tr : list event) : bool :=
  match tr with
  | [] => true
  | KillChecked present :: rest => guarded (negb present) rest
  | Logged _ :: rest => guarded armed rest
  | Applied _ _ _ :: rest => armed && guarded false rest
  | _ :: rest => guarded false rest
  end.

(** After a check that found the sentinel, nothing but log lines comes
    before the next check. [halting] says that the last check found the
    sentinel. *)
Fixpoint respected (halting : bool) (tr : list event) : bool :=
  match tr with
  | [] => true
  | KillChecked present :: rest => respected present rest
  | Logged _ :: rest => respected halting rest
  | _ :: rest => negb halting && respected false rest
  end.

(** ** The shape of a run of [agent_core.py] *)

(** The trace of the loop over the candidates: iterations that go on to
    the next candidate, ended by the end of the list, by the sentinel, or by
    an iteration that accepts. *)
Inductive loop_shape (margin : Q) (score_b : Z) : list event -> AgentCore.loop_exit -> Prop :=
| shape_exhausted :
    loop_shape margin score_b [] AgentCore.Exhausted
| shape_killed :
    loop_shape margin score_b [KillChecked true; Logged LogKill] AgentCore.Killed
| shape_broke logs cand before ok tests_a lint_a tail :
    Forall is_log logs -> Forall is_aftermath tail ->
    (margin <= Score.loop_delta score_b (Score.compute_score tests_a lint_a))%Q ->
    loop_shape margin score_b
      (KillChecked false :: logs ++ Applied cand before ok :: Measured tests_a lint_a
         :: tail ++ [Accepted cand (Score.loop_delta score_b (Score.compute_score tests_a lint_a))])
      AgentCore.Broke
| shape_next logs cand before ok tests_a lint_a tail tr out :
    Forall is_log logs -> Forall is_aftermath tail ->
    loop_shape margin score_b tr out ->
    loop_shape margin score_b
      (KillChecked false :: logs ++ Applied cand before ok :: Measured tests_a lint_a
         :: tail ++ tr)
      out.

(** The trace of [process_repo]: the preparation, with the baseline
    measurement; the loop; the closing. *)
Inductive repo_shape (margin : Q) : list event -> Prop :=
| repo_shape_intro full setup score_b looptr out closing :
    Forall is_setup setup ->
    loop_shape margin score_b looptr out ->
    Forall is_aftermath closing ->
    (out = AgentCore.Killed -> closing = []) ->
    repo_shape margin (RepoEntered full :: setup ++ looptr ++ closing).

(** ** Specimen runs *)

(** The answer of a planner that proposes two new files. *)
Definition quoted (s : string) : string :=
  String "034" EmptyString +:+ s +:+ String "034" EmptyString.

Definition member (key value : string) : string := quoted key +:+ ": " +:+ quoted value.

Definition record_text (file new_content reason : string) : string :=
  "{" +:+ member "file" file +:+ ", " +:+ member "new_content" new_content
  +:+ ", " +:+ member "reason" reason +:+ "}".

Definition two_candidates : string :=
  "[" +:+ record_text "a.py" "x = 1" "first" +:+ ", "
  +:+ record_text "b.py" "y = 2" "second" +:+ "]".


Definition first_candidate : json := candidate_record "a.py" "x = 1" "first".
Definition second_candidate : json := candidate_record "b.py" "y = 2" "second".

(** The directory of the agent, with an allowlist. *)
Definition home (allowlist : string) : FS :=
  {[ ["srv"] := Dir;
     ["srv"; "kai"] := Dir;
     ["srv"; "kai"; "repos.txt"] := File allowlist ]}.

(** A run on one repository whose baseline has ten lint issues; every
    assessment after a candidate finds four. The code host refuses the first
    pull request. *)
Definition refusing_host : env :=
  {| cwd := ["srv"; "kai"];
     environ := {[ "KAI_PAT" := "secret" ]};
     agent_config := Ok no_options;
     sentinel := fun _ => false;
     get_repo := fun _ => Ok {| default_branch := "main" |};
     git_clone := fun _ => Some specimen_tree;
     assess := fun n _ => tools_with_issues (if Nat.eqb n 0 then 10 else 4);
     make_archive := fun _ => Ok tt;
     completion := fun _ => two_candidates;
     create_pull := fun n => if Nat.eqb n 0 then Raise GithubException else Ok 7%Z;
     add_memory := fun _ => Ok tt;
     black := fun _ disk => Ok disk;
     write_record := fun _ => Ok tt |}.

(** The same run with a code host that accepts every pull request and
    assessments that find no improvement. *)
Definition unimpressed : env :=
  {| cwd := ["srv"; "kai"];
     environ := {[ "KAI_PAT" := "secret" ]};
     agent_config := Ok no_options;
     sentinel := fun _ => false;
     get_repo := fun _ => Ok {| default_branch := "main" |};
     git_clone := fun _ => Some specimen_tree;
     assess := fun _ _ => tools_with_issues 10;
     make_archive := fun _ => Ok tt;
     completion := fun _ => two_candidates;
     create_pull := fun _ => Ok 7%Z;
     add_memory := fun _ => Ok tt;
     black := fun _ disk => Ok disk;
     write_record := fun _ => Ok tt |}.

(** A run on two repositories in which the sentinel is there at the
    third check only, the one before the first candidate of the first
    repository. *)
Definition flicker : env :=
  {| cwd := ["srv"; "kai"];
     environ := {[ "KAI_PAT" := "secret" ]};
     agent_config := Ok no_options;
     sentinel := fun n => Nat.eqb n 2;
     get_repo := fun _ => Ok {| default_branch := "main" |};
     git_clone := fun _ => Some specimen_tree;
     assess := fun _ _ => tools_with_issues 10;
     make_archive := fun _ => Ok tt;
     completion := fun _ => two_candidates;
     create_pull := fun _ => Ok 7%Z;
     add_memory := fun _ => Ok tt;
     black := fun _ disk => Ok disk;
     write_record := fun _ => Ok tt |}.

(** The same run with a sentinel that stays from the third check on. *)
Definition halted_run : env :=
  {| cwd := ["srv"; "kai"];
     environ := {[ "KAI_PAT" := "secret" ]};
     agent_config := Ok no_options;
     sentinel := fun n => Nat.leb 2 n;
     get_repo := fun _ => Ok {| default_branch := "main" |};
     git_clone := fun _ => Some specimen_tree;
     assess := fun _ _ => tools_with_issues 10;
     make_archive := fun _ => Ok tt;
     completion := fun _ => two_candidates;
     create_pull := fun _ => Ok 7%Z;
     add_memory := fun _ => Ok tt;
     black := fun _ disk => Ok disk;
     write_record := fun _ => Ok tt |}.

(** A run with a credential in which the planner backend is down. *)
Definition planner_down : env :=
  {| cwd := ["srv"; "kai"];
     environ := {[ "GITHUB_TOKEN" := "secret" ]};
     agent_config := Ok no_options;
     sentinel := fun _ => false;
     get_repo := fun _ => Ok {| default_branch := "" |};
     git_clone := fun _ => Some specimen_tree;
     assess := fun _ _ => tools_with_issues 10;
     make_archive := fun _ => Ok tt;
     completion := fun _ => Planner.LLM_UNAVAILABLE;
     create_pull := fun _ => Ok 7%Z;
     add_memory := fun _ => Ok tt;
     black := fun _ disk => Ok disk;
     write_record := fun _ => Ok tt |}.

Definition one_repo : string := "acme/widget" +:+ PyStr.nl.
Definition two_repos : string := "acme/first" +:+ PyStr.nl +:+ "acme/second" +:+ PyStr.nl.

(** The working copy of the specimen runs, and its file [a.py]. *)
Definition widget_root : list string := ["srv"; "kai"; "_kai_work"; "widget"].
Definition widget_a : list string := widget_root ++ ["a.py"].

(** The filesystem the n-th application was made on. *)
Definition applied_on (n : nat) (tr : list event) : FS :=
  default ∅ (snd <$> applications tr !! n).

(** The trace of the loop of [main] over the repositories: a check and a
    repository, again and again, ended by the end of the allowlist or by the
    sentinel. *)
Inductive run_shape (margin : Q) : list event -> Prop :=
| run_shape_end :
    run_shape margin []
| run_shape_killed :
    run_shape margin [KillChecked true; Logged LogKill]
| run_shape_repo tr rest :
    repo_shape margin tr -> run_shape margin rest ->
    run_shape margin (KillChecked false :: tr ++ rest).

(** The trace of [main]. *)
Inductive main_shape (margin : Q) : list event -> Prop :=
| main_shape_killed :
    main_shape margin [KillChecked true; Logged LogKill]
| main_shape_early logs :
    Forall is_log logs ->
    main_shape margin (KillChecked false :: logs)
| main_shape_run tr :
    run_shape margin tr ->
    main_shape margin (KillChecked false :: tr ++ [Logged LogRunFinished]).

(** Nothing is applied and no repository is entered. *)
Definition is_idle (e : event) : bool :=
  match e with
  | Logged _ | KillChecked true => true
  | _ => false
  end.

(** All the events a computation adds satisfy [ok]. *)
Definition emits_only {A} (ok : event -> Prop) (m : M A) : Prop :=
  forall w w' r, m w = (w', r) -> exists tr, trace w' = trace w ++ tr /\ Forall ok tr.

Definition is_log_event (e : event) : Prop := is_log e.
Definition is_aftermath_event (e : event) : Prop := is_aftermath e.
Definition is_setup_event (e : event) : Prop := is_setup e.

(** A computation of [process_repo]: the preparation, the loop, the
    closing; it does not raise when the sentinel ended the loop. *)
Definition repo_body_like (margin : Q) {A} (m : M A) : Prop :=
  forall w w' r,
    m w = (w', r) ->
    exists setup score_b looptr out closing,
      trace w' = trace w ++ setup ++ looptr ++ closing
      /\ Forall is_setup setup
      /\ loop_shape margin score_b looptr out
      /\ Forall is_aftermath closing
      /\ (out = AgentCore.Killed -> closing = [] /\ ~ raises r).



Definition is_negative_check (e : event) : bool :=
  match e with
  | KillChecked false => true
  | _ => false
  end.

(** * More of the code *)

(** ** The allowlists of [kai_evolve.py] and [kai_maintainer.py] *)

Module KaiEvolve.

(** [BASE = Path.cwd()] *)
Definition BASE (cwd : list string) : Posix.ppath :=
  {| Posix.anchored := true; Posix.parts := cwd |}.

(** The loop of [read_repos]. *)
Fixpoint rows (lines : list string) : list string :=
  match lines with
  | [] => []
  | line :: rest =>
      let s := PyStr.strip line in
      if negb (PyStr.truthy s) || PyStr.startswith "#" s then rows rest
      else if PyStr.contains "/" s then s :: rows rest
      else rows rest
  end.

(** [read_repos]: the file is read without a look whether it exists. *)
Definition read_repos (cwd : list string) (disk : FS) : result (list string) :=
  bind_result
    (Posix.read_text cwd (Posix.joinpath (BASE cwd) (Posix.path_of "repos.txt")) disk)
    (fun text => Ok (rows (PyStr.splitlines text))).

End KaiEvolve.

Module KaiMaintainer.

(** The loop of [read_repos_list]. *)
Fixpoint rows (lines : list string) : list string :=
  match lines with
  | [] => []
  | line :: rest =>
      let s := PyStr.strip line in
      if negb (PyStr.truthy s) || PyStr.startswith "#" s then rows rest
      else if negb (PyStr.contains "/" s) then rows rest
      else s :: rows rest
  end.

Definition read_repos_list (cwd : list string) (disk : FS) : result (list string) :=
  bind_result (Posix.read_text cwd (Posix.path_of "repos.txt") disk)
    (fun text => Ok (rows (PyStr.splitlines text))).

End KaiMaintainer.

(** ** [memory.py] *)

(** The memory of the agent is a JSON file in the working directory. What
    [json.dump] writes for a value is the text [dumps] gives; the time of
    the clock is an input. *)
Module Memory.

Definition MEM_FILE : Posix.ppath := Posix.path_of "kai_memory.json".

(** [_load]: the bare [except] takes every failure of the reading. *)
Definition _load (cwd : list string) (disk : FS) : result json :=
  if Posix.exists_ cwd MEM_FILE disk then
    try_except (bind_result (Posix.read_text cwd MEM_FILE disk) Json.loads)
               (fun _ => Ok (JArr []))
  else Ok (JArr []).

(** [_save]: the file is opened for writing, then written. *)
Definition _save (dumps : json -> string) (cwd : list string) (data : json) : io unit :=
  Posix.write_text cwd MEM_FILE (dumps data).

(** The entry [add_memory] makes; [meta or {}] of a dict, or of nothing. *)
Definition entry (text : string) (meta : option (list (string * json))) (ts : string) : json :=
  JObj [("text", JStr text); ("meta", JObj (default [] meta)); ("ts", JNum ts)].

(** [add_memory]: [mem.append] needs a list. *)
Definition add_memory (dumps : json -> string) (cwd : list string)
                      (text : string) (meta : option (list (string * json))) (ts : string)
    : io unit :=
  fun disk =>
    match _load cwd disk with
    | Raise e => (disk, Raise e)
    | Ok (JArr items) => _save dumps cwd (JArr (items ++ [entry text meta ts])) disk
    | Ok _ => (disk, Raise AttributeError)
    end.

End Memory.

(** An entry of an allowlist, as the readers leave it. *)
Definition is_entry (s : string) : Prop :=
  s <> "" /\ PyStr.startswith "#" s = false /\ PyStr.strip s = s.

(** The entries with a slash. *)
Definition slashed (l : list string) : list string :=
  filter (fun s => PyStr.contains "/" s = true) l.


(** An event inside a repository: any but the entry into one. *)
Definition inside (e : event) : Prop :=
  match e with
  | RepoEntered _ => False
  | _ => True
  end.

(** ** What comes before a push *)

Definition no_push (e : event) : Prop :=
  match e with
  | BranchPushed => False
  | _ => True
  end.

(** Every push of the trace comes right after events that satisfy
    [just]. *)
Definition pushes_after (just : list event -> Prop) (tr : list event) : Prop :=
  forall a b, tr = a ++ BranchPushed :: b -> exists a' j, a = a' ++ j /\ just j.

(** A measurement whose delta over the baseline reaches the margin, and
    log lines. *)
Definition measured_above (margin : Q) (score_b : Z) (j : list event) : Prop :=
  exists tests_a lint_a logs,
    j = Measured tests_a lint_a :: logs
    /\ Forall is_log logs
    /\ (margin <= Score.loop_delta score_b (Score.compute_score tests_a lint_a))%Q.

(** The acceptance of the decision engine, with a delta that reaches the
    margin. *)
Definition accepted_above (margin : Q) (j : list event) : Prop :=
  exists delta, j = [EngineAccepted delta] /\ (margin <= delta)%Q.

(** The pushes a computation adds come after events that satisfy
    [just]. *)
Definition pushes_only_after (just : list event -> Prop) {A} (m : M A) : Prop :=
  forall w w' r, m w = (w', r) -> exists tr, trace w' = trace w ++ tr /\ pushes_after just tr.

Definition no_pull_request (e : event) : Prop :=
  match e with
  | PullRequestOpened _ => False
  | _ => True
  end.

(** ** What is done to a repository *)

(** An event that leaves the repository and its remote as they are:
    nothing applied, accepted or rejected, nothing pushed, no pull
    request. *)
Definition untouched (e : event) : Prop :=
  match e with
  | Applied _ _ _ | Accepted _ _ | Rejected _ _ | BranchPushed | PullRequestOpened _ => False
  | _ => True
  end.

Definition not_applied (e : event) : Prop :=
  match e with
  | Applied _ _ _ => False
  | _ => True
  end.

(** The applications a computation adds are of the first candidates of
    [cands], in their order. *)
Definition applies_in_order (cands : list json) {A} (m : M A) : Prop :=
  forall w w' r,
    m w = (w', r) ->
    exists tr, trace w' = trace w ++ tr /\ (applications tr).*1 `prefix_of` cands.

(** ** Specimens *)

(** An allowlist with a comment, a blank line, white space around an
    entry, and a line without a slash. *)
Definition untidy_allowlist : string :=
  "# mine" +:+ PyStr.nl +:+ "  acme/widget  " +:+ PyStr.nl +:+ PyStr.nl
  +:+ "notes" +:+ PyStr.nl.

(** A linter that ends with status 2 and prints on the error stream only. *)
Definition crashed_linter : tools :=
  {| run_pytest := Ok {| returncode := 0; stdout := ""; stderr := "" |};
     write_pytest_output := Ok tt;
     run_flake8 := Ok {| returncode := 2; stdout := " "; stderr := "flake8: error" |};
     write_flake8_output := Ok tt |}.


(** The working copy of the specimen repository. *)
Definition widget_dir : Posix.ppath := Posix.joinpath AgentCore.work (Posix.path_of "widget").

(** The events of the loop of the specimen run on two candidates, with a
    baseline of 90, and those of the decision engine on the repository. *)
Definition specimen_loop_events : list event :=
  events_of (AgentCore.candidate_loop refusing_host no_options "acme/widget" widget_dir 90
               [first_candidate; second_candidate])
            (start (home one_repo)).

Definition specimen_engine_events : list event :=
  events_of (DecisionEngine.process_repo refusing_host "acme/widget" "false")
            (start (home one_repo)).


Definition specimen_dumps (v : json) : string :=
  "[{" +:+ quoted "text" +:+ ": " +:+ quoted "noted" +:+ ", " +:+ quoted "meta" +:+ ": {}, "
  +:+ quoted "ts" +:+ ": 1.5}]".

(** * Properties *)

(** ** The embedding on small inputs *)

Example splitlines_blank_line :
  PyStr.splitlines ("a" +:+ PyStr.nl +:+ PyStr.nl +:+ "b" +:+ PyStr.nl) = ["a"; ""; "b"].
Proof. reflexivity. Qed.

Example splitlines_crlf :
  PyStr.splitlines ("a" +:+ String "013" PyStr.nl +:+ "b") = ["a"; "b"].
Proof. reflexivity. Qed.

Example strip_both_sides : PyStr.strip ("  # note " +:+ PyStr.nl) = "# note".
Proof. reflexivity. Qed.

Example allowlist_lines :
  allow_lines (PyStr.splitlines ("# mine" +:+ PyStr.nl +:+ PyStr.nl +:+ " acme/widget "
                                 +:+ PyStr.nl +:+ "acme/gadget"))
  = ["acme/widget"; "acme/gadget"].
Proof. reflexivity. Qed.

Example path_keeps_dotdot :
  Posix.path_of "a//b/./../c"
  = {| Posix.anchored := false; Posix.parts := ["a"; "b"; ".."; "c"] |}.
Proof. reflexivity. Qed.

Example joinpath_absolute_wins :
  Posix.joinpath (Posix.path_of "_kai_work/repo") (Posix.path_of "/etc/passwd")
  = {| Posix.anchored := true; Posix.parts := ["etc"; "passwd"] |}.
Proof. reflexivity. Qed.

Example repo_name_of_identifier : AgentCore.repo_name "acme/widget" = Ok "widget".
Proof. reflexivity. Qed.

Example repo_name_without_slash : AgentCore.repo_name "widget" = Raise IndexError.
Proof. reflexivity. Qed.

Example loads_candidates :
  Json.loads two_candidates = Ok (JArr [first_candidate; second_candidate]).
Proof. reflexivity. Qed.

Example loads_trailing_comma : Json.loads "[1,]" = Raise JSONDecodeError.
Proof. reflexivity. Qed.

Example loads_extra_data : Json.loads "[] []" = Raise JSONDecodeError.
Proof. reflexivity. Qed.

Example loads_leading_zero : Json.loads "01" = Raise JSONDecodeError.
Proof. reflexivity. Qed.

Example loads_nested :
  Json.loads ("{" +:+ quoted "a" +:+ ": [true, null, -1.5e3, {}]}")
  = Ok (JObj [("a", JArr [JBool true; JNull; JNum "-1.5e3"; JObj []])]).
Proof. reflexivity. Qed.

Example dict_reads_last_member :
  Json.dict_get "a" [("a", JNum "1"); ("b", JNull); ("a", JNum "2")] = Some (JNum "2").
Proof. reflexivity. Qed.

Example lint_lines_counts : lint_lines (issue_lines 3) = 3%Z.
Proof. reflexivity. Qed.

(** ** Scores and deltas *)

(** The scenarios A to D of the specification. *)
Example scenario_A :
  (Score.loop_delta (Score.compute_score true 10) (Score.compute_score true 4) == 20 # 3)%Q
  /\ Qle_bool 5 (Score.loop_delta (Score.compute_score true 10) (Score.compute_score true 4))
     = true.
Proof. split; reflexivity. Qed.

Example scenario_B :
  (Score.loop_delta (Score.compute_score true 10) (Score.compute_score true 9) == 10 # 9)%Q
  /\ Qle_bool 5 (Score.loop_delta (Score.compute_score true 10) (Score.compute_score true 9))
     = false.
Proof. split; reflexivity. Qed.

Example scenario_C :
  Score.loop_delta (Score.compute_score false 0) (Score.compute_score true 0) = 100%Q.
Proof. reflexivity. Qed.

Example scenario_D :
  (Score.loop_delta (Score.compute_score false 5) (Score.compute_score false 5) == 0)%Q.
Proof. reflexivity. Qed.

Section ScoreFacts.
Import Score.
Local Open Scope Q_scope.

Lemma spec_score_inject t l : spec_score t l == inject_Z (compute_score t l).
Proof.
  unfold spec_score, compute_score, Qeq, Qminus, Qplus, Qopp, inject_Z.
  destruct t; simpl; lia.
Qed.

Lemma spec_delta_compat b b' a a' :
  b == b' -> a == a' -> spec_delta b a == spec_delta b' a'.
Proof.
  intros Hb Ha. unfold spec_delta.
  destruct (Qeq_bool b 0) eqn:E; destruct (Qeq_bool b' 0) eqn:E'.
  - destruct (Qlt_le_dec 0 a) as [H|H], (Qlt_le_dec 0 a') as [H'|H']; try reflexivity.
    + rewrite Ha in H. exfalso. apply (Qlt_not_le _ _ H H').
    + rewrite Ha in H. exfalso. apply (Qlt_not_le _ _ H' H).
  - apply Qeq_bool_iff in E. apply Qeq_bool_neq in E'. exfalso. apply E'. now rewrite <- Hb.
  - apply Qeq_bool_iff in E'. apply Qeq_bool_neq in E. exfalso. apply E. now rewrite Hb.
  - now rewrite Hb, Ha.
Qed.

Lemma loop_delta_spec b a :
  loop_delta b a == spec_delta (inject_Z b) (inject_Z a).
Proof.
  unfold loop_delta, spec_delta.
  destruct (Z.eqb_spec b 0) as [->|Hb]; simpl negb; cbv iota.
  - change (Qeq_bool (inject_Z 0) 0) with true. cbv iota.
    destruct (Qlt_le_dec 0 (inject_Z a)) as [H|H].
    + change 0 with (inject_Z 0) in H. rewrite <- Zlt_Qlt in H.
      destruct (Z.gtb_spec a 0); [reflexivity | lia].
    + change 0 with (inject_Z 0) in H. rewrite <- Zle_Qle in H.
      destruct (Z.gtb_spec a 0); [lia | reflexivity].
  - destruct (Qeq_bool (inject_Z b) 0) eqn:E.
    + apply Qeq_bool_iff in E. unfold Qeq in E. simpl in E. lia.
    + unfold Qminus, Z.sub. rewrite inject_Z_plus, inject_Z_opp. reflexivity.
Qed.

Lemma quality_score_spec tb lb ta la :
  quality_score tb lb ta la == spec_delta (spec_score tb lb) (spec_score ta la).
Proof.
  unfold quality_score, spec_delta, spec_score, tests_score.
  destruct tb, ta; reflexivity.
Qed.

End ScoreFacts.

(** C2. The delta the decision loop of [agent_core.py] computes from the
    two measurements, and the one [quality_score] of [kai_decision_engine.py]
    computes, are the delta of the specification applied to the scores of
    the specification: [(after - before) / |before| * 100] when [before] is
    not 0, and otherwise 100 when [after > 0] and 0 when it is not. *)
Theorem delta_refines_spec (tests_ok_before : bool) (lint_before : Z)
                           (tests_ok_after : bool) (lint_after : Z) :
  (Score.loop_delta (Score.compute_score tests_ok_before lint_before)
                    (Score.compute_score tests_ok_after lint_after)
   == Score.spec_delta (Score.spec_score tests_ok_before lint_before)
                       (Score.spec_score tests_ok_after lint_after))%Q
  /\ (Score.quality_score tests_ok_before lint_before tests_ok_after lint_after
      == Score.spec_delta (Score.spec_score tests_ok_before lint_before)
                          (Score.spec_score tests_ok_after lint_after))%Q.
Proof.
  split.
  - rewrite loop_delta_spec.
    apply spec_delta_compat; symmetry; apply spec_score_inject.
  - apply quality_score_spec.
Qed.

(** ** The quality assessor *)

Lemma evaluator_compute_quality_eq t cwd repo_dir disk :
  Evaluator.compute_quality t cwd repo_dir disk
  = Ok (tests_verdict t (has_tests cwd repo_dir disk), lint_verdict t).
Proof.
  unfold Evaluator.compute_quality, tests_verdict, lint_verdict, has_tests, lint_lines.
  destruct (_ || _); destruct (run_pytest t), (write_pytest_output t),
    (run_flake8 t), (write_flake8_output t); reflexivity.
Qed.

Lemma engine_compute_quality_ok E repo_dir w :
  exists w',
    DecisionEngine.compute_quality E repo_dir w
    = (w', Ok (tests_verdict (assess E (calls w CAssess) (fs w))
                             (has_tests (cwd E) repo_dir (fs w)),
               lint_verdict (assess E (calls w CAssess) (fs w))))
    /\ fs w' = fs w.
Proof.
  unfold DecisionEngine.compute_quality, tests_verdict, lint_verdict, has_tests, lint_lines.
  unfold bind, next, get_fs, try_catch, of_result, ret, log, emit. simpl.
  generalize (assess E (calls w CAssess) (fs w)). intros t.
  destruct (_ || _);
    destruct (run_pytest t), (write_pytest_output t), (run_flake8 t), (write_flake8_output t);
    simpl; eexists; split; reflexivity.
Qed.



(** ** The planner *)




(** ** Start of a run *)

Lemma exists_repos_txt (cwd : list string) (disk : FS) :
  Posix.exists_ cwd (Posix.path_of "repos.txt") disk
  = bool_decide (is_Some (disk !! (cwd ++ ["repos.txt"]))).
Proof.
  change (Posix.path_of "repos.txt")
    with {| Posix.anchored := false; Posix.parts := ["repos.txt"] |}.
  unfold Posix.exists_, Posix.stat, Posix.origin. simpl.
  destruct (disk !! (cwd ++ ["repos.txt"])) as [x|] eqn:Hx; simpl.
  - first [reflexivity | symmetry; apply bool_decide_eq_true; eauto].
  - first [reflexivity | symmetry; apply bool_decide_eq_false; intros [? [=]]].
Qed.

Lemma agent_main_early (E : env) (cfg : config) (disk : FS) :
  agent_config E = Ok cfg ->
  falsy (AgentCore.token E) = true \/ AgentCore.read_allowlist (cwd E) disk = Ok [] ->
  exists w,
    AgentCore.program E disk = (w, Returned)
    /\ fs w = disk
    /\ trace w =
         (if sentinel E 0 then [KillChecked true; Logged LogKill]
          else if falsy (AgentCore.token E) then [KillChecked false; Logged LogMissingToken]
          else [KillChecked false; Logged LogNothingToDo]).
Proof.
  intros Hcfg Hearly.
  unfold AgentCore.program, AgentCore.main, AgentCore.check_kill.
  rewrite Hcfg.
  unfold bind, next, emit, log, emit, ret, of_result, get_fs, start. simpl.
  destruct (sentinel E 0) eqn:Hk; simpl.
  - eexists. repeat split.
  - destruct (falsy (AgentCore.token E)) eqn:Ht; simpl.
    + eexists. repeat split.
    + destruct Hearly as [[=] | Hallow]. rewrite Hallow. simpl.
      eexists. repeat split.
Qed.

Lemma engine_main_early (E : env) (disk : FS) :
  (falsy (DecisionEngine.token E) = true ->
   DecisionEngine.program E disk
   = ({| fs := disk; calls := fun _ => 0; trace := [Logged LogEngineNoToken] |}, SysExit 1))
  /\ (falsy (DecisionEngine.token E) = false ->
      DecisionEngine.read_allowlist (cwd E) disk = Ok [] ->
      DecisionEngine.program E disk
      = ({| fs := disk; calls := fun _ => 0; trace := [Logged LogEngineNoRepos] |}, Returned)).
Proof.
  unfold DecisionEngine.program, DecisionEngine.main. split.
  - intros ->. reflexivity.
  - intros -> Hallow.
    unfold bind, get_fs, of_result, start. simpl. rewrite Hallow. reflexivity.
Qed.




(** C10. When [repos.txt] does not exist, [read_allowlist] returns the
    empty list without raising, in [agent_core.py] and in
    [kai_decision_engine.py], and the run ends as it does on an empty
    allowlist: [agent_core.py] returns with status 0, no repository
    processed, after the line "nothing to do" when the sentinel is absent
    and the credential present; [kai_decision_engine.py] with a credential
    logs that the allowlist is empty and returns. *)
Theorem missing_allowlist_reads_empty (E : env) (cfg : config) (disk : FS) :
  disk !! (cwd E ++ ["repos.txt"]) = None ->
  AgentCore.read_allowlist (cwd E) disk = Ok []
  /\ DecisionEngine.read_allowlist (cwd E) disk = Ok []
  /\ (agent_config E = Ok cfg ->
      exists w,
        AgentCore.program E disk = (w, Returned)
        /\ repos_entered (trace w) = []
        /\ (sentinel E 0 = false -> falsy (AgentCore.token E) = false ->
            trace w = [KillChecked false; Logged LogNothingToDo]))
  /\ (falsy (DecisionEngine.token E) = false ->
      exists w,
        DecisionEngine.program E disk = (w, Returned)
        /\ trace w = [Logged LogEngineNoRepos]).
Proof.
  intros Hnone.
  assert (Hread : AgentCore.read_allowlist (cwd E) disk = Ok []).
  { unfold AgentCore.read_allowlist. rewrite exists_repos_txt, Hnone.
    rewrite bool_decide_eq_false_2; [reflexivity | intros [? [=]]]. }
  split; [exact Hread |]. split; [exact Hread |]. split.
  - intros Hcfg.
    destruct (agent_main_early E cfg disk Hcfg (or_intror Hread)) as (w & Hp & _ & Htr).
    exists w. split; [exact Hp |]. rewrite Htr. split.
    + destruct (sentinel E 0); [reflexivity |]. destruct (falsy _); reflexivity.
    + intros -> ->. reflexivity.
  - intros Htoken. eexists. split; [exact (proj2 (engine_main_early E disk) Htoken Hread) |].
    reflexivity.
Qed.

Lemma missing_allowlist_reads_empty_witness :
  AgentCore.read_allowlist (cwd quiet) ∅ = Ok []
  /\ DecisionEngine.read_allowlist (cwd quiet) ∅ = Ok []
  /\ exists w, AgentCore.program quiet ∅ = (w, Returned) /\ repos_entered (trace w) = [].
Proof.
  destruct (missing_allowlist_reads_empty quiet no_options ∅) as (Ha & He & Hrun & _);
    [reflexivity |].
  split; [exact Ha |]. split; [exact He |].
  destruct Hrun as (w & Hp & Hr & _); [reflexivity |].
  exists w. split; assumption.
Defined.

(** ** Files and directories *)

Section PosixFacts.
Context (cwd : list string).
Implicit Types (disk : FS) (p q : Posix.ppath) (d l : list string).

(** Putting something where no directory stood leaves every resolved
    directory path as it was. *)
Lemma walk_insert disk d comps d' l x :
  Posix.walk disk d comps = Ok d' ->
  disk !! l <> Some Dir ->
  Posix.walk (<[l := x]> disk) d comps = Ok d'.
Proof.
  intros Hwalk Hl. revert d Hwalk.
  induction comps as [|c cs IH]; intros d Hwalk; simpl in *; [exact Hwalk |].
  case_decide; [now apply IH |].
  destruct (disk !! (d ++ [c])) as [[|content]|] eqn:Hc; try discriminate.
  rewrite lookup_insert_ne; [| intros ->; congruence].
  rewrite Hc. now apply IH.
Qed.

Lemma write_text_raise p content disk disk' e :
  Posix.write_text cwd p content disk = (disk', Raise e) -> disk' = disk.
Proof.
  unfold Posix.write_text.
  destruct (Posix.has_nul p); [congruence |].
  destruct (Posix.walk _ _ _); [| congruence].
  destruct (last _); [| congruence].
  case_decide; [congruence |].
  destruct (disk !! _) as [[|?]|]; congruence.
Qed.

Lemma write_text_stat p content disk disk' :
  Posix.write_text cwd p content disk = (disk', Ok tt) ->
  Posix.stat cwd p disk' = Ok (File content).
Proof.
  unfold Posix.write_text, Posix.stat.
  destruct (Posix.has_nul p); [congruence |].
  destruct (Posix.walk disk _ _) as [d|] eqn:Hwalk; [| congruence].
  destruct (last _) as [n|]; [| congruence].
  case_decide; [congruence |].
  destruct (disk !! (d ++ [n])) as [[|old]|] eqn:Hn; [congruence | |];
    intros [= <-];
    (rewrite (walk_insert _ _ _ _ _ _ Hwalk); [| congruence]);
    simpl; now rewrite lookup_insert_eq.
Qed.

(** A write makes nothing disappear. *)
Lemma write_text_keeps p content disk disk' q x :
  Posix.write_text cwd p content disk = (disk', Ok tt) ->
  Posix.stat cwd q disk = Ok x ->
  exists y, Posix.stat cwd q disk' = Ok y.
Proof.
  unfold Posix.write_text.
  destruct (Posix.has_nul p); [congruence |].
  destruct (Posix.walk disk _ (removelast (Posix.parts p))) as [d|] eqn:Hwalk; [| congruence].
  destruct (last (Posix.parts p)) as [n|]; [| congruence].
  case_decide; [congruence |].
  assert (Hins : disk !! (d ++ [n]) <> Some Dir ->
             Posix.stat cwd q disk = Ok x ->
             exists y, Posix.stat cwd q (<[d ++ [n] := File content]> disk) = Ok y).
  { intros Hnd. unfold Posix.stat.
    destruct (Posix.has_nul q); [congruence |].
    destruct (Posix.walk disk _ (removelast (Posix.parts q))) as [dq|] eqn:Hq; [| discriminate].
    rewrite (walk_insert _ _ _ _ _ _ Hq Hnd). simpl.
    destruct (last (Posix.parts q)) as [m|]; [| eauto].
    case_decide; [eauto |].
    destruct (decide (d ++ [n] = dq ++ [m])) as [<-|Hne].
    - rewrite lookup_insert_eq. eauto.
    - rewrite lookup_insert_ne by assumption.
      destruct (disk !! (dq ++ [m])); [eauto | discriminate]. }
  destruct (disk !! (d ++ [n])) as [[|old]|] eqn:Hn; [congruence | |];
    intros [= <-]; apply Hins; congruence.
Qed.

Lemma exists_stat p disk :
  Posix.exists_ cwd p disk = true <-> exists x, Posix.stat cwd p disk = Ok x.
Proof.
  unfold Posix.exists_. destruct (Posix.stat cwd p disk); split; eauto; try discriminate.
  intros [? [=]].
Qed.

Lemma write_text_exists p content disk disk' :
  Posix.write_text cwd p content disk = (disk', Ok tt) ->
  Posix.exists_ cwd p disk' = true.
Proof. intros H. apply exists_stat. eauto using write_text_stat. Qed.

Lemma write_text_keeps_exists p content disk disk' r q :
  Posix.write_text cwd p content disk = (disk', r) ->
  Posix.exists_ cwd q disk = true ->
  Posix.exists_ cwd q disk' = true.
Proof.
  intros Hw Hq. destruct r as [[]|e].
  - apply exists_stat in Hq as [x Hx]. apply exists_stat.
    eauto using write_text_keeps.
  - apply write_text_raise in Hw as ->. exact Hq.
Qed.

End PosixFacts.

(** ** The safe mutations *)

Section Mutations.
Context (cwd : list string) (repo_dir : Posix.ppath).

Lemma marker_in_badged (txt : string) :
  PyStr.contains "Maintained by Kai" (badge +:+ PyStr.nl +:+ PyStr.nl +:+ txt) = true.
Proof. reflexivity. Qed.

Lemma marker_in_new_readme :
  PyStr.contains "Maintained by Kai" ("# Repo" +:+ PyStr.nl +:+ PyStr.nl +:+ badge +:+ PyStr.nl)
  = true.
Proof. reflexivity. Qed.

(** Once the marker is in the README, [ensure_badge] changes nothing. *)
Lemma ensure_badge_settled disk txt :
  Posix.stat cwd (Posix.joinpath repo_dir (Posix.path_of "README.md")) disk = Ok (File txt) ->
  PyStr.contains "Maintained by Kai" txt = true ->
  Evolve.ensure_badge cwd repo_dir disk = (disk, Ok tt).
Proof.
  intros Hstat Hin. unfold Evolve.ensure_badge, Posix.exists_, Posix.read_text.
  rewrite Hstat. simpl. now rewrite Hin.
Qed.

Lemma ensure_editorconfig_settled disk :
  Posix.exists_ cwd (Posix.joinpath repo_dir (Posix.path_of ".editorconfig")) disk = true ->
  Evolve.ensure_editorconfig cwd repo_dir disk = (disk, Ok tt).
Proof. intros H. unfold Evolve.ensure_editorconfig. now rewrite H. Qed.

Lemma ensure_editorconfig_raise disk disk' e :
  Evolve.ensure_editorconfig cwd repo_dir disk = (disk', Raise e) -> disk' = disk.
Proof.
  unfold Evolve.ensure_editorconfig. destruct (negb _); [| congruence].
  apply write_text_raise.
Qed.

Lemma ensure_editorconfig_done disk disk' :
  Evolve.ensure_editorconfig cwd repo_dir disk = (disk', Ok tt) ->
  Posix.exists_ cwd (Posix.joinpath repo_dir (Posix.path_of ".editorconfig")) disk' = true.
Proof.
  unfold Evolve.ensure_editorconfig.
  destruct (Posix.exists_ _ _ disk) eqn:Hex; simpl.
  - now intros [= <-].
  - apply write_text_exists.
Qed.

Lemma ensure_editorconfig_twice disk :
  after (Evolve.ensure_editorconfig cwd repo_dir)
        (after (Evolve.ensure_editorconfig cwd repo_dir) disk)
  = after (Evolve.ensure_editorconfig cwd repo_dir) disk.
Proof.
  unfold after.
  destruct (Evolve.ensure_editorconfig cwd repo_dir disk) as [disk' [[]|e]] eqn:H1; simpl.
  - now rewrite (ensure_editorconfig_settled _ (ensure_editorconfig_done _ _ H1)).
  - apply ensure_editorconfig_raise in H1 as Heq. subst disk'. now rewrite H1.
Qed.

(** What [ensure_badge] leaves is settled, or it raised and changed
    nothing. *)
Lemma ensure_badge_cases disk disk' r :
  Evolve.ensure_badge cwd repo_dir disk = (disk', r) ->
  Evolve.ensure_badge cwd repo_dir disk' = (disk', r)
  \/ Evolve.ensure_badge cwd repo_dir disk' = (disk', Ok tt).
Proof.
  unfold Evolve.ensure_badge at 1.
  set (readme := Posix.joinpath repo_dir (Posix.path_of "README.md")).
  destruct (Posix.exists_ cwd readme disk) eqn:Hex.
  - destruct (Posix.read_text cwd readme disk) as [txt|e] eqn:Hread.
    + destruct (PyStr.contains "Maintained by Kai" txt) eqn:Hin; simpl.
      * intros [= <- <-]. right. apply ensure_badge_settled with txt; [| exact Hin].
        unfold Posix.read_text in Hread. fold readme.
        destruct (Posix.stat cwd readme disk) as [[|c]|]; simpl in Hread; congruence.
      * intros Hw. destruct r as [[]|e].
        -- right. eapply ensure_badge_settled;
             [eapply write_text_stat; exact Hw | apply marker_in_badged].
        -- left. apply write_text_raise in Hw as Heq. subst disk'.
           unfold Evolve.ensure_badge. fold readme. rewrite Hex, Hread, Hin. exact Hw.
    + intros [= <- <-]. left. unfold Evolve.ensure_badge. fold readme.
      now rewrite Hex, Hread.
  - intros Hw. destruct r as [[]|e].
    + right. eapply ensure_badge_settled;
        [eapply write_text_stat; exact Hw | apply marker_in_new_readme].
    + left. apply write_text_raise in Hw as Heq. subst disk'.
      unfold Evolve.ensure_badge. fold readme. rewrite Hex. exact Hw.
Qed.

Lemma ensure_badge_twice disk :
  after (Evolve.ensure_badge cwd repo_dir) (after (Evolve.ensure_badge cwd repo_dir) disk)
  = after (Evolve.ensure_badge cwd repo_dir) disk.
Proof.
  unfold after.
  destruct (Evolve.ensure_badge cwd repo_dir disk) as [disk' r] eqn:H1; simpl.
  destruct (ensure_badge_cases _ _ _ H1) as [-> | ->]; reflexivity.
Qed.

Lemma ensure_badge_keeps_exists disk disk' r q :
  Evolve.ensure_badge cwd repo_dir disk = (disk', r) ->
  Posix.exists_ cwd q disk = true ->
  Posix.exists_ cwd q disk' = true.
Proof.
  unfold Evolve.ensure_badge.
  destruct (Posix.exists_ cwd _ disk).
  - destruct (Posix.read_text _ _ _) as [txt|e]; [| now intros [= <- <-]].
    destruct (negb _); [| now intros [= <- <-]].
    apply write_text_keeps_exists.
  - apply write_text_keeps_exists.
Qed.

(** [apply_safe_mutations] is the two mutations of [kai_evolve.py] in a
    row. *)
Lemma apply_safe_mutations_seq disk :
  Maintainer.apply_safe_mutations cwd repo_dir disk
  = match Evolve.ensure_editorconfig cwd repo_dir disk with
    | (disk1, Raise e) => (disk1, Raise e)
    | (disk1, Ok _) => Evolve.ensure_badge cwd repo_dir disk1
    end.
Proof. reflexivity. Qed.

Lemma apply_safe_mutations_twice disk :
  after (Maintainer.apply_safe_mutations cwd repo_dir)
        (after (Maintainer.apply_safe_mutations cwd repo_dir) disk)
  = after (Maintainer.apply_safe_mutations cwd repo_dir) disk.
Proof.
  unfold after. rewrite !apply_safe_mutations_seq.
  destruct (Evolve.ensure_editorconfig cwd repo_dir disk) as [disk1 [[]|e]] eqn:H1; simpl.
  - destruct (Evolve.ensure_badge cwd repo_dir disk1) as [disk2 r] eqn:H2; simpl.
    rewrite (ensure_editorconfig_settled disk2).
    + destruct (ensure_badge_cases _ _ _ H2) as [-> | ->]; reflexivity.
    + eapply ensure_badge_keeps_exists; [exact H2 |].
      eapply ensure_editorconfig_done; exact H1.
  - apply ensure_editorconfig_raise in H1 as Heq. subst disk1. now rewrite H1.
Qed.

End Mutations.

(** C9. Each safe mutation is idempotent: on every filesystem, for every
    working copy, running it a second time leaves what the first run left.
    This holds of [ensure_editorconfig] and [ensure_badge] of
    [kai_evolve.py] and of [apply_safe_mutations] of [kai_maintainer.py]. *)
Theorem safe_mutations_idempotent (cwd : list string) (repo_dir : Posix.ppath) (disk : FS) :
  after (Evolve.ensure_editorconfig cwd repo_dir)
        (after (Evolve.ensure_editorconfig cwd repo_dir) disk)
  = after (Evolve.ensure_editorconfig cwd repo_dir) disk
  /\ after (Evolve.ensure_badge cwd repo_dir) (after (Evolve.ensure_badge cwd repo_dir) disk)
     = after (Evolve.ensure_badge cwd repo_dir) disk
  /\ after (Maintainer.apply_safe_mutations cwd repo_dir)
           (after (Maintainer.apply_safe_mutations cwd repo_dir) disk)
     = after (Maintainer.apply_safe_mutations cwd repo_dir) disk.
Proof.
  split; [apply ensure_editorconfig_twice |].
  split; [apply ensure_badge_twice | apply apply_safe_mutations_twice].
Qed.

(** ** Where a candidate is written *)

Section Within.
Context (cwd : list string).
Import Posix.
Implicit Types (disk : FS) (p q : ppath) (d l root : list string).















End Within.




(** ** Traces of computations *)

Section Traces.
Implicit Types (ok : event -> Prop).

Lemma bind_inv {A B} (m : M A) (k : A -> M B) w w' r :
  bind m k w = (w', r) ->
  (exists w1 a, m w = (w1, Ok a) /\ k a w1 = (w', r))
  \/ (exists e, m w = (w', Raise e) /\ r = Raise e).
Proof.
  unfold bind. destruct (m w) as [w1 [a|e]]; [left | right]; eauto.
  injection H as <- <-. eauto.
Qed.

Lemma try_catch_inv {A} (body : M A) (handler : exn -> M A) w w' r :
  try_catch body handler w = (w', r) ->
  (exists a, body w = (w', Ok a) /\ r = Ok a)
  \/ (exists w1 e, body w = (w1, Raise e) /\ handler e w1 = (w', r)).
Proof.
  unfold try_catch. destruct (body w) as [w1 [a|e]]; [left | right]; eauto.
  injection H as <- <-. eauto.
Qed.

(** All the events [m] adds satisfy [ok]. *)
Lemma eo_silent {A} ok (m : M A) :
  (forall w, trace (fst (m w)) = trace w) -> emits_only ok m.
Proof.
  intros Hm w w' r H. exists []. split; [| constructor].
  rewrite app_nil_r, <- (Hm w), H. reflexivity.
Qed.

Lemma eo_ret {A} ok (a : A) : emits_only ok (ret a).
Proof. now apply eo_silent. Qed.

Lemma eo_raise {A} ok e : emits_only ok (@raise A e).
Proof. now apply eo_silent. Qed.

Lemma eo_of_result {A} ok (r : result A) : emits_only ok (of_result r).
Proof. now apply eo_silent. Qed.

Lemma eo_next ok c : emits_only ok (next c).
Proof. now apply eo_silent. Qed.

Lemma eo_get_fs ok : emits_only ok get_fs.
Proof. now apply eo_silent. Qed.

Lemma eo_set_fs ok disk : emits_only ok (set_fs disk).
Proof. now apply eo_silent. Qed.

Lemma eo_lift_io {A} ok (f : io A) : emits_only ok (lift_io f).
Proof. apply eo_silent. intros w. unfold lift_io. now destruct (f (fs w)). Qed.

Lemma eo_emit ok e : ok e -> emits_only ok (emit e).
Proof.
  intros He w w' r [= <- _]. exists [e]. split; [reflexivity | now constructor].
Qed.

Lemma eo_bind {A B} ok (m : M A) (k : A -> M B) :
  emits_only ok m -> (forall a, emits_only ok (k a)) -> emits_only ok (bind m k).
Proof.
  intros Hm Hk w w' r H.
  apply bind_inv in H as [(w1 & a & H1 & H2) | (e & H1 & _)].
  - destruct (Hm _ _ _ H1) as (tr1 & E1 & F1), (Hk _ _ _ _ H2) as (tr2 & E2 & F2).
    exists (tr1 ++ tr2). split; [now rewrite E2, E1, app_assoc | now apply Forall_app].
  - exact (Hm _ _ _ H1).
Qed.

Lemma eo_try_catch {A} ok (body : M A) handler :
  emits_only ok body -> (forall e, emits_only ok (handler e)) ->
  emits_only ok (try_catch body handler).
Proof.
  intros Hb Hh w w' r H.
  apply try_catch_inv in H as [(a & H1 & _) | (w1 & e & H1 & H2)].
  - exact (Hb _ _ _ H1).
  - destruct (Hb _ _ _ H1) as (tr1 & E1 & F1), (Hh _ _ _ _ H2) as (tr2 & E2 & F2).
    exists (tr1 ++ tr2). split; [now rewrite E2, E1, app_assoc | now apply Forall_app].
Qed.

End Traces.

(** Goes through a computation made of binds, branches and the
    primitives. *)
Ltac eo_step :=
  first
    [ apply eo_bind; [| intros ?]
    | apply eo_try_catch; [| intros ?]
    | apply eo_ret | apply eo_raise | apply eo_of_result | apply eo_next
    | apply eo_get_fs | apply eo_set_fs | apply eo_lift_io
    | apply eo_emit; first [exact I | reflexivity | assumption]
    | match goal with
      | |- emits_only _ (if ?c then _ else _) => destruct c
      | |- emits_only _ (match ?x with _ => _ end) => destruct x
      end ].

Ltac eo := unfold log; repeat eo_step.

Section AgentTraces.
Context (E : env).

Lemma apply_candidate_logs cwd repo_dir cand :
  emits_only is_log_event (AgentCore.apply_candidate cwd repo_dir cand).
Proof. unfold AgentCore.apply_candidate. eo. Qed.

Lemma apply_candidate_ok cwd repo_dir cand w w' r :
  AgentCore.apply_candidate cwd repo_dir cand w = (w', r) -> exists ok, r = Ok ok.
Proof.
  unfold AgentCore.apply_candidate, try_catch, bind, of_result, lift_io, ret, log, emit.
  destruct (Json.subscript cand "file"); [| intros [= _ <-]; eauto].
  destruct (Json.subscript cand "new_content"); [| intros [= _ <-]; eauto].
  destruct (AgentCore.safe_write_file _ _ _ _ _) as [? [[]|?]]; intros [= _ <-]; eauto.
Qed.

Lemma git_clone_into_aftermath work full :
  emits_only is_aftermath_event (git_clone_into E work full).
Proof. unfold git_clone_into. eo. Qed.

Lemma git_clone_into_ok work full w w' r :
  git_clone_into E work full w = (w', r) -> exists b, r = Ok b.
Proof.
  unfold git_clone_into, bind, next, get_fs, set_fs, emit, ret.
  destruct (git_clone E _); intros [= _ <-]; eauto.
Qed.

Lemma rmtree_silent p : emits_only is_aftermath_event (rmtree E p).
Proof. unfold rmtree. eo. Qed.

Lemma rmtree_ok p w w' r : rmtree E p w = (w', r) -> r = Ok tt.
Proof. unfold rmtree, bind, get_fs, set_fs. now intros [= _ <-]. Qed.

Lemma check_kill_inv w w' r :
  AgentCore.check_kill E w = (w', r) ->
  exists present,
    r = Ok present
    /\ trace w' = trace w ++ KillChecked present :: (if present then [Logged LogKill] else []).
Proof.
  unfold AgentCore.check_kill, bind, next, emit, log, emit, ret. simpl.
  destruct (sentinel E (calls w CSentinel)); intros [= <- <-]; eexists; split; try reflexivity;
    simpl; now rewrite <- app_assoc.
Qed.

Lemma compute_quality_inv repo_dir w w' r :
  AgentCore.compute_quality E repo_dir w = (w', r) ->
  exists tests_ok lint_count,
    r = Ok (tests_ok, lint_count) /\ trace w' = trace w ++ [Measured tests_ok lint_count].
Proof.
  unfold AgentCore.compute_quality, bind, next, get_fs, of_result, emit, ret. simpl.
  rewrite evaluator_compute_quality_eq. simpl. intros [= <- <-]. eauto.
Qed.

(** The publication ends with the acceptance, or raises before it. *)
Lemma publish_inv cand delta w w' r :
  AgentCore.publish E cand delta w = (w', r) ->
  exists tail,
    Forall is_aftermath tail
    /\ ((r = Ok tt /\ trace w' = trace w ++ tail ++ [Accepted cand delta])
        \/ ((exists e, r = Raise e) /\ trace w' = trace w ++ tail)).
Proof.
  unfold AgentCore.publish, bind, next, emit, log, emit, of_result, ret. simpl.
  destruct (AgentCore.reason_of cand); simpl.
  - destruct (create_pull E _) as [number|]; simpl.
    + destruct (add_memory E _) as [[]|]; simpl; intros [= <- <-].
      * exists [BranchPushed; PullRequestOpened number; Logged (LogCreatedPR number)].
        split; [repeat constructor |]. left. split; [reflexivity |].
        simpl. now rewrite <- !app_assoc.
      * exists [BranchPushed; PullRequestOpened number; Logged (LogCreatedPR number)].
        split; [repeat constructor |]. right. split; [eauto |].
        simpl. now rewrite <- !app_assoc.
    + intros [= <- <-]. exists [BranchPushed]. split; [repeat constructor |]. right. eauto.
  - intros [= <- <-]. exists [BranchPushed]. split; [repeat constructor |]. right. eauto.
Qed.

End AgentTraces.

(** ** The loop over the candidates *)

Section LoopShape.
Context (E : env) (cfg : config) (full : string) (repo_dir : Posix.ppath) (score_b : Z).

Lemma emit_inv e w w' r :
  emit e w = (w', r) -> r = Ok tt /\ trace w' = trace w ++ [e].
Proof. now intros [= <- <-]. Qed.

Lemma ret_inv {A} (a : A) w w' r : ret a w = (w', r) -> r = Ok a /\ w' = w.
Proof. now intros [= <- <-]. Qed.

Lemma get_fs_inv w w' r : get_fs w = (w', r) -> r = Ok (fs w) /\ w' = w.
Proof. now intros [= <- <-]. Qed.

Lemma candidate_loop_shape candidates :
  forall w w' r,
    AgentCore.candidate_loop E cfg full repo_dir score_b candidates w = (w', r) ->
    exists tr out,
      r = Ok out
      /\ trace w' = trace w ++ tr
      /\ loop_shape (AgentCore.IMPROVEMENT_MARGIN cfg) score_b tr out.
Proof.
  induction candidates as [|cand rest IH]; intros w w' r H.
  - apply ret_inv in H as [-> ->]. exists [], AgentCore.Exhausted.
    split; [reflexivity |]. split; [now rewrite app_nil_r | constructor].
  - cbn [AgentCore.candidate_loop] in H.
    apply bind_inv in H as [(w1 & killed & Hk & H) | (e & Hk & _)];
      apply check_kill_inv in Hk as (present & Hp & T1); [| discriminate].
    injection Hp as ->.
    destruct present.
    { apply ret_inv in H as [-> ->]. exists [KillChecked true; Logged LogKill], AgentCore.Killed.
      split; [reflexivity |]. split; [exact T1 | constructor]. }
    apply bind_inv in H as [(w2 & before & Hg & H) | (e & Hg & _)];
      apply get_fs_inv in Hg as [Hb ->]; [| discriminate].
    injection Hb as ->.
    apply bind_inv in H as [(w3 & ok & Ha & H) | (e & Ha & _)];
      [| apply apply_candidate_ok in Ha as [? [=]]].
    destruct (apply_candidate_logs _ _ _ _ _ _ Ha) as (logs & T3 & Flogs).
    apply bind_inv in H as [(w4 & [] & He & H) | (e & He & _)];
      apply emit_inv in He as [? T4]; [| discriminate].
    apply bind_inv in H as [(w5 & q & Hq & H) | (e & Hq & _)];
      apply compute_quality_inv in Hq as (tests_a & lint_a & Hq & T5); [| discriminate].
    injection Hq as ->. cbn [fst snd] in H.
    set (delta := Score.loop_delta score_b (AgentCore.compute_score tests_a lint_a)) in *.
    apply bind_inv in H as [(w6 & [] & He & H) | (e & He & _)];
      apply emit_inv in He as [? T6]; [| discriminate].
    destruct (Qle_bool (AgentCore.IMPROVEMENT_MARGIN cfg) delta) eqn:Hmargin.
    + apply Qle_bool_iff in Hmargin.
      apply bind_inv in H as [(w7 & [] & He & H) | (e & He & _)];
        apply emit_inv in He as [? T7]; [| discriminate].
      apply bind_inv in H as [(w8 & published & Hpub & H) | (e & Hpub & _)].
      * apply try_catch_inv in Hpub as [(? & Hpub & [= <-]) | (w9 & e & Hpub & Hh)].
        -- (* published *)
           apply bind_inv in Hpub as [(w9 & [] & Hpub & Hr) | (e & Hpub & [=])].
           apply ret_inv in Hr as [[= ->] ->].
           apply ret_inv in H as [-> ->].
           apply publish_inv in Hpub as (tail & Ftail & [[_ T8] | [[e [=]] _]]).
           exists (KillChecked false :: logs ++ Applied cand (fs w1) ok :: Measured tests_a lint_a
                     :: ([Logged (LogCandidateResult (AgentCore.compute_score tests_a lint_a) delta);
                          Logged LogImprovement] ++ tail) ++ [Accepted cand delta]),
                  AgentCore.Broke.
           split; [reflexivity |]. split.
           ++ rewrite T8, T7, T6, T5, T4, T3, T1. simpl. now rewrite <- !app_assoc.
           ++ apply shape_broke; [exact Flogs | | exact Hmargin].
              repeat constructor. exact Ftail.
        -- (* the publication raised *)
           apply bind_inv in Hpub as [(w10 & [] & Hpub & Hr) | (e' & Hpub & _)];
             [apply ret_inv in Hr as [[=] _] |].
           apply publish_inv in Hpub as (tail & Ftail & [[[=] _] | [_ T9]]).
           apply bind_inv in Hh as [(w10 & [] & He & Hr) | (e'' & He & _)];
             apply emit_inv in He as [? T10]; [| discriminate].
           apply ret_inv in Hr as [[= ->] ->].
           apply IH in H as (tr & out & -> & T & Hshape).
           exists (KillChecked false :: logs ++ Applied cand (fs w1) ok :: Measured tests_a lint_a
                     :: ([Logged (LogCandidateResult (AgentCore.compute_score tests_a lint_a) delta);
                          Logged LogImprovement] ++ tail ++ [Logged (LogPushFailed e)]) ++ tr),
                  out.
           split; [reflexivity |]. split.
           ++ rewrite T, T10, T9, T7, T6, T5, T4, T3, T1. simpl. now rewrite <- !app_assoc.
           ++ apply shape_next; [exact Flogs | | exact Hshape].
              repeat constructor. apply Forall_app. split; [exact Ftail | repeat constructor].
      * apply try_catch_inv in Hpub as [(? & _ & [=]) | (w9 & e' & Hpub & Hh)].
        apply bind_inv in Hh as [(w10 & [] & He & Hr) | (e'' & He & _)];
          apply emit_inv in He as [? T10]; [| discriminate].
        now apply ret_inv in Hr as [[=] _].
    + apply bind_inv in H as [(w7 & [] & He & H) | (e & He & _)];
        apply emit_inv in He as [? T7]; [| discriminate].
      apply bind_inv in H as [(w8 & [] & Hrm & H) | (e & Hrm & _)];
        [| apply rmtree_ok in Hrm; discriminate].
      destruct (rmtree_silent E _ _ _ _ Hrm) as (tr8 & T8 & F8).
      apply bind_inv in H as [(w9 & cloned & Hcl & H) | (e & Hcl & _)];
        [| apply git_clone_into_ok in Hcl as [? [=]]].
      destruct (git_clone_into_aftermath E _ _ _ _ _ Hcl) as (tr9 & T9 & F9).
      apply IH in H as (tr & out & -> & T & Hshape).
      exists (KillChecked false :: logs ++ Applied cand (fs w1) ok :: Measured tests_a lint_a
                :: ([Logged (LogCandidateResult (AgentCore.compute_score tests_a lint_a) delta);
                     Rejected cand delta] ++ tr8 ++ tr9) ++ tr),
             out.
      split; [reflexivity |]. split.
      * rewrite T, T9, T8, T7, T6, T5, T4, T3, T1. simpl. now rewrite <- !app_assoc.
      * apply shape_next; [exact Flogs | | exact Hshape].
        repeat constructor. apply Forall_app. split; assumption.
Qed.

End LoopShape.

(** ** One repository, and the run *)

Section RepoShape.
Context (E : env) (cfg : config).
Local Abbreviation margin := (AgentCore.IMPROVEMENT_MARGIN cfg).

Lemma body_like_setup {A} (m : M A) :
  emits_only is_setup_event m -> repo_body_like margin m.
Proof.
  intros Hm w w' r H. destruct (Hm _ _ _ H) as (tr & T & F).
  exists tr, 0%Z, [], AgentCore.Exhausted, [].
  split; [now rewrite !app_nil_r |]. split; [exact F |].
  split; [constructor |]. split; [constructor | discriminate].
Qed.

Lemma body_like_bind {A B} (m : M A) (k : A -> M B) :
  emits_only is_setup_event m -> (forall a, repo_body_like margin (k a)) ->
  repo_body_like margin (bind m k).
Proof.
  intros Hm Hk w w' r H.
  apply bind_inv in H as [(w1 & a & H1 & H2) | (e & H1 & ->)].
  - destruct (Hm _ _ _ H1) as (tr & T & F).
    destruct (Hk _ _ _ _ H2) as (setup & score_b & looptr & out & closing & T' & F' & Hs & Fc & Hk').
    exists (tr ++ setup), score_b, looptr, out, closing.
    split; [now rewrite T', T, <- !app_assoc |].
    split; [now apply Forall_app |]. auto.
  - destruct (Hm _ _ _ H1) as (tr & T & F).
    exists tr, 0%Z, [], AgentCore.Exhausted, [].
    split; [now rewrite !app_nil_r |]. split; [exact F |].
    split; [constructor |]. split; [constructor | discriminate].
Qed.

Lemma loop_and_closing_like full repo_dir score_b items :
  repo_body_like margin
    (let* out := AgentCore.candidate_loop E cfg full repo_dir score_b items in
     match out with
     | AgentCore.Killed => ret tt
     | _ =>
         AgentCore.snapshot E "after" ;;
         (match out with
          | AgentCore.Broke => ret tt
          | _ => log (LogNoCandidateAccepted full)
          end) ;;
         rmtree E AgentCore.work
     end).
Proof.
  intros w w' r H.
  apply bind_inv in H as [(w1 & out & Hloop & H) | (e & Hloop & _)];
    apply candidate_loop_shape in Hloop as (looptr & out' & Hout & T & Hshape); [| discriminate].
  injection Hout as <-.
  assert (Hclosing : emits_only is_aftermath_event
            (AgentCore.snapshot E "after" ;;
             (match out with
              | AgentCore.Broke => ret tt
              | _ => log (LogNoCandidateAccepted full)
              end) ;;
             rmtree E AgentCore.work)).
  { unfold AgentCore.snapshot, rmtree. eo. }
  destruct out.
  - destruct (Hclosing _ _ _ H) as (closing & T' & F).
    exists [], score_b, looptr, AgentCore.Exhausted, closing.
    split; [now rewrite T', T, <- app_assoc |]. repeat split; auto; discriminate.
  - destruct (Hclosing _ _ _ H) as (closing & T' & F).
    exists [], score_b, looptr, AgentCore.Broke, closing.
    split; [now rewrite T', T, <- app_assoc |]. repeat split; auto; discriminate.
  - apply ret_inv in H as [-> ->].
    exists [], score_b, looptr, AgentCore.Killed, [].
    split; [now rewrite T, app_nil_r |]. repeat split; auto.
Qed.

Lemma process_repo_body_like full :
  repo_body_like margin (AgentCore.process_repo_body E cfg full).
Proof.
  unfold AgentCore.process_repo_body.
  repeat first
    [ apply loop_and_closing_like
    | apply body_like_bind;
      [ solve [unfold git_clone_into, rmtree, AgentCore.compute_quality, AgentCore.snapshot; eo]
      | intros ? ]
    | match goal with
      | |- repo_body_like _ (if ?c then _ else _) => destruct c
      end
    | apply body_like_setup; solve [eo] ].
Qed.

Lemma process_repo_shape full w w' r :
  AgentCore.process_repo E cfg full w = (w', r) ->
  r = Ok tt /\ exists tr, trace w' = trace w ++ tr /\ repo_shape margin tr.
Proof.
  unfold AgentCore.process_repo. intros H.
  apply bind_inv in H as [(w1 & [] & He & H) | (e & He & _)];
    apply emit_inv in He as [? T1]; [| discriminate].
  apply try_catch_inv in H as [([] & Hbody & ->) | (w2 & e & Hbody & Hh)].
  - split; [reflexivity |].
    destruct (process_repo_body_like full _ _ _ Hbody)
      as (setup & score_b & looptr & out & closing & T & F & Hs & Fc & Hk).
    exists (RepoEntered full :: setup ++ looptr ++ closing).
    split; [now rewrite T, T1, <- app_assoc |].
    econstructor; eauto. intros Hout. now destruct (Hk Hout).
  - apply emit_inv in Hh as [-> T2]. split; [reflexivity |].
    destruct (process_repo_body_like full _ _ _ Hbody)
      as (setup & score_b & looptr & out & closing & T & F & Hs & Fc & Hk).
    exists (RepoEntered full :: setup ++ looptr ++ closing ++ [Logged (LogErrorProcessRepo full e)]).
    split; [rewrite T2, T, T1; simpl; now rewrite <- !app_assoc |].
    econstructor; eauto.
    + apply Forall_app. split; [exact Fc | repeat constructor].
    + intros Hout. destruct (Hk Hout) as [_ Hr]. destruct Hr. exact I.
Qed.

Lemma repo_loop_shape allow :
  forall w w' r,
    AgentCore.repo_loop E cfg allow w = (w', r) ->
    r = Ok tt /\ exists tr, trace w' = trace w ++ tr /\ run_shape margin tr.
Proof.
  induction allow as [|full rest IH]; intros w w' r H.
  - apply ret_inv in H as [-> ->]. split; [reflexivity |].
    exists []. split; [now rewrite app_nil_r | constructor].
  - cbn [AgentCore.repo_loop] in H.
    apply bind_inv in H as [(w1 & killed & Hk & H) | (e & Hk & _)];
      apply check_kill_inv in Hk as (present & Hp & T1); [| discriminate].
    injection Hp as ->. destruct present.
    + apply ret_inv in H as [-> ->]. split; [reflexivity |].
      exists [KillChecked true; Logged LogKill]. split; [exact T1 | constructor].
    + apply bind_inv in H as [(w2 & [] & Hrepo & H) | (e & Hrepo & _)];
        apply process_repo_shape in Hrepo as (Hr & tr & T2 & Hshape); [| discriminate].
      apply IH in H as (-> & tr' & T3 & Hrun). split; [reflexivity |].
      exists (KillChecked false :: tr ++ tr').
      split; [rewrite T3, T2, T1; simpl; now rewrite <- !app_assoc |].
      now constructor.
Qed.

Lemma main_shape_of w w' r :
  AgentCore.main E cfg w = (w', r) ->
  exists tr, trace w' = trace w ++ tr /\ main_shape margin tr.
Proof.
  unfold AgentCore.main. intros H.
  apply bind_inv in H as [(w1 & killed & Hk & H) | (e & Hk & _)];
    apply check_kill_inv in Hk as (present & Hp & T1); [| discriminate].
  injection Hp as ->. destruct present.
  { apply ret_inv in H as [-> ->].
    exists [KillChecked true; Logged LogKill]. split; [exact T1 | constructor]. }
  apply bind_inv in H as [(w2 & c & Hc & H) | (e & Hc & _)]; injection Hc as <- Hc.
  2: { exists [KillChecked false]. split; [exact T1 | repeat constructor]. }
  destruct (falsy (AgentCore.token E)).
  { apply emit_inv in H as [_ T2].
    exists [KillChecked false; Logged LogMissingToken].
    split; [rewrite T2, T1; now rewrite <- app_assoc | repeat constructor]. }
  apply bind_inv in H as [(w3 & disk & Hg & H) | (e & Hg & _)];
    apply get_fs_inv in Hg as [Hd ->]; [| discriminate].
  apply bind_inv in H as [(w4 & allow & Ha & H) | (e & Ha & _)]; injection Ha as <- Ha.
  2: { exists [KillChecked false]. split; [exact T1 | repeat constructor]. }
  destruct allow as [|full rest].
  { apply emit_inv in H as [_ T2].
    exists [KillChecked false; Logged LogNothingToDo].
    split; [rewrite T2, T1; now rewrite <- app_assoc | repeat constructor]. }
  apply bind_inv in H as [(w5 & [] & Hl & H) | (e & Hl & _)];
    apply repo_loop_shape in Hl as (Hr & tr & T2 & Hrun); [| discriminate].
  apply emit_inv in H as [_ T3].
  exists (KillChecked false :: tr ++ [Logged LogRunFinished]).
  split; [rewrite T3, T2, T1; simpl; now rewrite <- !app_assoc |].
  now constructor.
Qed.

End RepoShape.

(** ** What the shapes say *)

Section Monitors.
Implicit Types (tr rest pre post logs : list event) (e : event).

Lemma events_of_eq {A} (m : M A) w w' r tr :
  m w = (w', r) -> trace w' = trace w ++ tr -> events_of m w = tr.
Proof.
  intros H T. unfold events_of. rewrite H. simpl. rewrite T. apply drop_app_length.
Qed.

(** *** Acceptances *)




Lemma aftermath_setup tr : Forall is_aftermath tr -> Forall is_setup tr.
Proof. intros H. eapply Forall_impl; [exact H |]. now intros []. Qed.









(** *** Applications are guarded *)

Lemma guarded_logs armed logs rest :
  Forall is_log logs -> guarded armed (logs ++ rest) = guarded armed rest.
Proof. induction 1 as [|[] l He _ IH]; try done. Qed.

Lemma guarded_setup armed tr rest :
  Forall is_setup tr -> (forall a, guarded a rest = true) -> guarded armed (tr ++ rest) = true.
Proof.
  intros H Hrest. revert armed.
  induction H as [|[] l He _ IH]; intros armed; try done; simpl; auto.
Qed.

Lemma guarded_loop margin score_b tr out :
  loop_shape margin score_b tr out ->
  forall armed rest, (forall a, guarded a rest = true) -> guarded armed (tr ++ rest) = true.
Proof.
  induction 1 as [| | logs cand before ok t l tail Fl Ft Hm
                  | logs cand before ok t l tail tr out Fl Ft _ IH]; intros armed rest Hrest.
  - apply Hrest.
  - apply Hrest.
  - simpl. rewrite <- app_assoc, guarded_logs by assumption. simpl.
    rewrite <- app_assoc. apply guarded_setup; [now apply aftermath_setup |].
    intros a. apply Hrest.
  - simpl. rewrite <- app_assoc, guarded_logs by assumption. simpl.
    rewrite <- app_assoc. apply guarded_setup; [now apply aftermath_setup |].
    intros a. now apply IH.
Qed.

Lemma guarded_repo margin tr :
  repo_shape margin tr ->
  forall armed rest, (forall a, guarded a rest = true) -> guarded armed (tr ++ rest) = true.
Proof.
  intros [full setup score_b looptr out closing Fs Hloop Fc Hk] armed rest Hrest.
  simpl. rewrite <- !app_assoc. apply guarded_setup; [exact Fs |].
  intros a. eapply guarded_loop; [exact Hloop |].
  intros a'. apply guarded_setup; [now apply aftermath_setup | exact Hrest].
Qed.

Lemma guarded_run margin tr :
  run_shape margin tr ->
  forall armed rest, (forall a, guarded a rest = true) -> guarded armed (tr ++ rest) = true.
Proof.
  induction 1 as [| | tr rest' Hrepo _ IH]; intros armed rest Hrest.
  - apply Hrest.
  - apply Hrest.
  - simpl. rewrite <- app_assoc. eapply guarded_repo; [exact Hrepo |].
    intros a. now apply IH.
Qed.

Lemma guarded_main margin tr : main_shape margin tr -> forall armed, guarded armed tr = true.
Proof.
  intros [| logs Fl | tr' Hrun] armed.
  - reflexivity.
  - simpl. rewrite <- (app_nil_r logs). now rewrite guarded_logs.
  - simpl. eapply guarded_run; [exact Hrun | done].
Qed.

Lemma guarded_applied armed pre cand before ok post :
  guarded armed (pre ++ Applied cand before ok :: post) = true ->
  (armed = true /\ Forall is_log pre)
  \/ exists pre' logs, pre = pre' ++ KillChecked false :: logs /\ Forall is_log logs.
Proof.
  revert armed. induction pre as [|e pre IH]; intros armed H.
  - simpl in H. apply andb_true_iff in H as [-> _]. left. split; [reflexivity | constructor].
  - assert (Hcons : forall a, guarded a (pre ++ Applied cand before ok :: post) = true ->
              (a = true /\ Forall is_log pre)
              \/ exists pre' logs, e :: pre = pre' ++ KillChecked false :: logs
                                   /\ Forall is_log logs).
    { intros a Ha. destruct (IH a Ha) as [Hl | (pre' & logs & -> & Fl)]; [now left |].
      right. exists (e :: pre'), logs. split; [reflexivity | exact Fl]. }
    destruct e as [l|present| | | | |c b o| | | | | | |]; simpl in H;
      try (destruct (Hcons false H) as [[[=] _] | Hr]; right; exact Hr).
    + destruct (Hcons armed H) as [[-> Fpre] | Hr]; [left | right; exact Hr].
      split; [reflexivity | now constructor].
    + destruct (Hcons (negb present) H) as [[Hp Fpre] | Hr]; [| right; exact Hr].
      destruct present; [discriminate |]. right. exists [], pre. split; [reflexivity | exact Fpre].
    + apply andb_true_iff in H as [_ H].
      destruct (Hcons false H) as [[[=] _] | Hr]; right; exact Hr.
Qed.

(** *** The sentinel is obeyed *)

Lemma respected_logs halting logs rest :
  Forall is_log logs -> respected halting (logs ++ rest) = respected halting rest.
Proof. induction 1 as [|[] l He _ IH]; try done. Qed.

Lemma respected_setup tr rest :
  Forall is_setup tr -> respected false rest = true -> respected false (tr ++ rest) = true.
Proof. intros H Hrest. induction H as [|[] l He _ IH]; try done. Qed.

Lemma respected_loop margin score_b tr out :
  loop_shape margin score_b tr out ->
  forall rest,
    respected false rest = true ->
    (out = AgentCore.Killed -> respected true rest = true) ->
    respected false (tr ++ rest) = true.
Proof.
  induction 1 as [| | logs cand before ok t l tail Fl Ft Hm
                  | logs cand before ok t l tail tr out Fl Ft _ IH]; intros rest Hf Ht.
  - exact Hf.
  - simpl. now apply Ht.
  - simpl. rewrite <- app_assoc, respected_logs by assumption. simpl.
    rewrite <- app_assoc. apply respected_setup; [now apply aftermath_setup | exact Hf].
  - simpl. rewrite <- app_assoc, respected_logs by assumption. simpl.
    rewrite <- app_assoc. apply respected_setup; [now apply aftermath_setup |].
    now apply IH.
Qed.

Lemma respected_repo margin tr :
  repo_shape margin tr ->
  forall rest, (forall h, respected h rest = true) -> respected false (tr ++ rest) = true.
Proof.
  intros [full setup score_b looptr out closing Fs Hloop Fc Hk] rest Hrest.
  simpl. rewrite <- !app_assoc. apply respected_setup; [exact Fs |].
  eapply respected_loop; [exact Hloop | |].
  - apply respected_setup; [now apply aftermath_setup | apply Hrest].
  - intros Hout. rewrite (Hk Hout). apply Hrest.
Qed.

Lemma respected_run margin tr :
  run_shape margin tr ->
  forall halting rest,
    (forall h, respected h rest = true) -> respected halting (tr ++ rest) = true.
Proof.
  induction 1 as [| | tr rest' Hrepo _ IH]; intros halting rest Hrest.
  - apply Hrest.
  - apply Hrest.
  - simpl. rewrite <- app_assoc. eapply respected_repo; [exact Hrepo |].
    intros h. now apply IH.
Qed.

Lemma respected_main margin tr :
  main_shape margin tr -> forall halting, respected halting tr = true.
Proof.
  intros [| logs Fl | tr' Hrun] halting.
  - reflexivity.
  - simpl. rewrite <- (app_nil_r logs). now rewrite respected_logs.
  - simpl. eapply respected_run; [exact Hrun | done].
Qed.

Lemma respected_after_kill halting pre post :
  respected halting (pre ++ KillChecked true :: post) = true -> respected true post = true.
Proof.
  revert halting. induction pre as [|e pre IH]; intros halting H; [exact H |].
  destruct e; simpl in H; try (apply andb_true_iff in H as [_ H]); eauto.
Qed.

Lemma respected_idle post :
  respected true post = true -> existsb is_negative_check post = false ->
  Forall is_idle post.
Proof.
  induction post as [|e post IH]; intros H Hn; [constructor |].
  simpl in Hn. apply orb_false_iff in Hn as [He Hpost].
  destruct e as [l|[]| | | | | | | | | | | |]; simpl in H; try discriminate.
  - constructor; [exact I | auto].
  - constructor; [exact I | auto].
Qed.

Lemma respected_until_check post :
  respected true post = true ->
  exists logs rest,
    post = logs ++ rest /\ Forall is_log logs
    /\ (rest = [] \/ exists present rest', rest = KillChecked present :: rest').
Proof.
  induction post as [|e post IH]; intros H.
  - exists [], []. split; [reflexivity |]. split; [constructor | now left].
  - destruct e as [l|present| | | | | | | | | | | |]; simpl in H; try discriminate.
    + destruct (IH H) as (logs & rest & -> & Fl & Hrest).
      exists (Logged l :: logs), rest. split; [reflexivity |]. split; [now constructor | exact Hrest].
    + exists [], (KillChecked present :: post).
      split; [reflexivity |]. split; [constructor | right; eauto].
Qed.

Lemma idle_nothing post :
  Forall is_idle post -> applications post = [] /\ repos_entered post = [].
Proof.
  induction 1 as [|e l He _ [IHa IHr]]; [split; reflexivity |].
  destruct e as [|[]| | | | | | | | | | | |]; try destruct He; split; assumption.
Qed.

End Monitors.

(** ** The decision engine accepts at most once *)

Section EngineAccepts.
Context (E : env).
Local Abbreviation margin := DecisionEngine.IMPROVEMENT_MARGIN.








End EngineAccepts.


(** C5, as the code has it. In a run of [agent_core.py] every application
    of a candidate comes after a check of the kill switch that found no
    sentinel, with nothing but log lines between the two. After a check that
    finds the sentinel, before a candidate or before a repository, nothing
    but log lines comes before the next check; and when no later check
    finds the sentinel gone, no candidate is applied and no repository is
    entered any more. *)
Theorem kill_switch_checked_and_obeyed (E : env) (disk : FS) :
  let tr := trace (fst (AgentCore.program E disk)) in
  (forall pre cand before ok post,
      tr = pre ++ Applied cand before ok :: post ->
      exists pre' logs, pre = pre' ++ KillChecked false :: logs /\ Forall is_log logs)
  /\ (forall pre post,
      tr = pre ++ KillChecked true :: post ->
      (exists logs rest,
          post = logs ++ rest /\ Forall is_log logs
          /\ (rest = [] \/ exists present rest', rest = KillChecked present :: rest'))
      /\ (existsb is_negative_check post = false ->
          applications post = [] /\ repos_entered post = [])).
Proof.
  cbv zeta.
  assert (Hmon : guarded false (trace (fst (AgentCore.program E disk))) = true
                 /\ respected false (trace (fst (AgentCore.program E disk))) = true).
  { unfold AgentCore.program. destruct (agent_config E) as [cfg|e]; [| split; reflexivity].
    destruct (AgentCore.main E cfg (start disk)) as [w' r] eqn:H.
    destruct (main_shape_of _ _ _ _ _ H) as (tr & T & Hshape). simpl in T.
    assert (Htr : trace (fst (let (w, r0) := (w', r) in
                              match r0 with Ok _ => (w, Returned) | Raise e => (w, Uncaught e) end))
                  = tr) by (destruct r; simpl; exact T).
    rewrite Htr. split; [eapply guarded_main | eapply respected_main]; exact Hshape. }
  destruct Hmon as [Hg Hr]. split.
  - intros pre cand before ok post Htr. rewrite Htr in Hg.
    destruct (guarded_applied _ _ _ _ _ _ Hg) as [[[=] _] | Hpre]. exact Hpre.
  - intros pre post Htr. rewrite Htr in Hr.
    apply respected_after_kill in Hr. split.
    + now apply respected_until_check.
    + intros Hn. apply idle_nothing. now apply respected_idle.
Qed.

Lemma kill_switch_checked_and_obeyed_witness :
  applications (after_first is_positive_check
                  (trace (fst (AgentCore.program halted_run (home two_repos))))) = []
  /\ repos_entered (after_first is_positive_check
                      (trace (fst (AgentCore.program halted_run (home two_repos))))) = [].
Proof.
  pose proof (kill_switch_checked_and_obeyed halted_run (home two_repos)) as [_ H].
  apply (H [KillChecked false; KillChecked false; RepoEntered "acme/first";
            Logged (LogProcessing "acme/first" "main"); CloneRun true; Measured true 10;
            Logged (LogBaseline 90 true 10); Archived "before"; Logged (LogPlanner 2)]).
  - vm_compute. reflexivity.
  - vm_compute. reflexivity.
Defined.

(** C5, as stated, fails: the sentinel found before the first candidate of
    the first repository ends that repository only; it is gone at the next
    check, and the second repository is processed and its candidates
    applied. *)
Lemma run_goes_on_after_kill_switch :
  let tr := trace (fst (AgentCore.program flicker (home two_repos))) in
  repos_entered (after_first is_positive_check tr) = ["acme/second"]
  /\ fst <$> applications (after_first is_positive_check tr)
     = [first_candidate; second_candidate].
Proof. vm_compute. split; reflexivity. Qed.

(** Scenario E of the specification: the backend of the planner is down,
    no candidate is proposed, nothing is applied, accepted or rejected. *)
Example scenario_E :
  trace (fst (AgentCore.program planner_down (home one_repo)))
  = [KillChecked false; KillChecked false; RepoEntered "acme/widget";
     Logged (LogProcessing "acme/widget" "master"); CloneRun true; Measured true 10;
     Logged (LogBaseline 90 true 10); Archived "before"; Logged (LogPlanner 0);
     Archived "after"; Logged (LogNoCandidateAccepted "acme/widget");
     Logged LogRunFinished].
Proof. vm_compute. reflexivity. Qed.

(** ** Candidates that compound *)

(** C3 fails on the code. The first candidate meets the margin and its
    publication raises: the loop goes on to the second candidate without
    cloning again, so the second candidate is applied on a working copy
    that still holds the file of the first, and differs from the baseline
    clone. *)
Theorem failed_publication_compounds :
  let tr := trace (fst (AgentCore.program refusing_host (home one_repo))) in
  let baseline := applied_on 0 tr in
  let next_state := applied_on 1 tr in
  fst <$> applications tr = [first_candidate; second_candidate]
  /\ accepts (take 16 tr) = 0%nat
  /\ baseline !! widget_a = None
  /\ next_state !! widget_a = Some (File "x = 1")
  /\ Posix.subtree widget_root next_state <> Posix.subtree widget_root baseline.
Proof.
  cbv zeta.
  assert (Hb : applied_on 0 (trace (fst (AgentCore.program refusing_host (home one_repo))))
               !! widget_a = None) by (vm_compute; reflexivity).
  assert (Hn : applied_on 1 (trace (fst (AgentCore.program refusing_host (home one_repo))))
               !! widget_a = Some (File "x = 1")) by (vm_compute; reflexivity).
  split; [vm_compute; reflexivity |]. split; [vm_compute; reflexivity |].
  split; [exact Hb |]. split; [exact Hn |].
  intros Heq. apply (f_equal (fun m => m !! widget_a)) in Heq.
  unfold Posix.subtree in Heq.
  rewrite !map_lookup_filter, Hb, Hn in Heq. simpl in Heq. discriminate.
Qed.

(** The sibling path: a candidate rejected for its delta is cloned away,
    and the next candidate is applied on the baseline. *)
Lemma rejection_restores_baseline :
  let tr := trace (fst (AgentCore.program unimpressed (home one_repo))) in
  fst <$> applications tr = [first_candidate; second_candidate]
  /\ applied_on 1 tr = applied_on 0 tr.
Proof.
  cbv zeta. split; [vm_compute; reflexivity |].
  apply map_to_list_inj.
  assert (Heq : map_to_list (applied_on 1 (trace (fst (AgentCore.program unimpressed
                                                        (home one_repo)))))
                = map_to_list (applied_on 0 (trace (fst (AgentCore.program unimpressed
                                                          (home one_repo))))))
    by (vm_compute; reflexivity).
  now rewrite Heq.
Qed.

(** * More of the code *)

(** ** Scores, deltas and measurements *)

Section MoreScores.
Import Score.
Local Open Scope Q_scope.

Lemma loop_delta_same b : loop_delta b b == 0.
Proof.
  unfold loop_delta. destruct (Z.eqb_spec b 0) as [->|Hb]; simpl negb; cbv iota.
  - reflexivity.
  - rewrite Z.sub_diag. unfold Qdiv. now rewrite !Qmult_0_l.
Qed.

Lemma loop_delta_monotone b a a' :
  (a <= a')%Z -> loop_delta b a <= loop_delta b a'.
Proof.
  intros Ha. unfold loop_delta.
  destruct (Z.eqb_spec b 0) as [->|Hb]; simpl negb; cbv iota.
  - destruct (Z.gtb_spec a 0), (Z.gtb_spec a' 0); try lia; try apply Qle_refl.
    discriminate.
  - apply Qmult_le_compat_r; [| discriminate].
    unfold Qdiv. apply Qmult_le_compat_r.
    + rewrite <- Zle_Qle. lia.
    + apply Qinv_le_0_compat. change 0 with (inject_Z 0). rewrite <- Zle_Qle. lia.
Qed.

Lemma quality_score_loop_delta tb lb ta la :
  quality_score tb lb ta la == loop_delta (compute_score tb lb) (compute_score ta la).
Proof.
  rewrite quality_score_spec, loop_delta_spec.
  apply spec_delta_compat; apply spec_score_inject.
Qed.

Lemma loop_delta_improves margin b a :
  0 < margin -> margin <= loop_delta b a -> (b < a)%Z.
Proof.
  intros Hm Hd. destruct (Z.lt_ge_cases b a) as [Hlt|Hge]; [exact Hlt |].
  exfalso. apply (Qlt_not_le _ _ Hm).
  apply (Qle_trans _ _ _ Hd). rewrite <- (loop_delta_same b).
  now apply loop_delta_monotone.
Qed.

End MoreScores.

(** X1. For a fixed baseline, a candidate that leaves a score at least as
    high as another one never gets a lower delta, in the loop of
    [agent_core.py] and in [quality_score] of [kai_decision_engine.py]. *)
Theorem delta_monotone_in_after_score
    (tests_b : bool) (lint_b : Z) (tests_a : bool) (lint_a : Z) (tests_a' : bool) (lint_a' : Z) :
  (Score.compute_score tests_a lint_a <= Score.compute_score tests_a' lint_a')%Z ->
  (Score.loop_delta (Score.compute_score tests_b lint_b) (Score.compute_score tests_a lint_a)
   <= Score.loop_delta (Score.compute_score tests_b lint_b) (Score.compute_score tests_a' lint_a'))%Q
  /\ (Score.quality_score tests_b lint_b tests_a lint_a
      <= Score.quality_score tests_b lint_b tests_a' lint_a')%Q.
Proof.
  intros H. split.
  - now apply loop_delta_monotone.
  - rewrite !quality_score_loop_delta. now apply loop_delta_monotone.
Qed.

Lemma delta_monotone_in_after_score_witness :
  (Score.loop_delta (Score.compute_score true 10) (Score.compute_score true 9)
   <= Score.loop_delta (Score.compute_score true 10) (Score.compute_score true 4))%Q.
Proof.
  apply (delta_monotone_in_after_score true 10 true 9 true 4). vm_compute. discriminate.
Defined.

(** X2. With a margin above zero, a delta that reaches the margin means a
    score strictly above the baseline: a candidate that does not raise the
    score is never accepted, whatever the baseline, zero and negative ones
    included. *)
Theorem acceptance_needs_higher_score
    (margin : Q) (tests_b : bool) (lint_b : Z) (tests_a : bool) (lint_a : Z) :
  (0 < margin)%Q ->
  ((margin <= Score.loop_delta (Score.compute_score tests_b lint_b)
                               (Score.compute_score tests_a lint_a))%Q ->
   (Score.compute_score tests_b lint_b < Score.compute_score tests_a lint_a)%Z)
  /\ ((margin <= Score.quality_score tests_b lint_b tests_a lint_a)%Q ->
      (Score.compute_score tests_b lint_b < Score.compute_score tests_a lint_a)%Z).
Proof.
  intros Hm. split; intros Hd.
  - exact (loop_delta_improves _ _ _ Hm Hd).
  - rewrite quality_score_loop_delta in Hd. exact (loop_delta_improves _ _ _ Hm Hd).
Qed.

Lemma acceptance_needs_higher_score_witness :
  (Score.compute_score false 0 < Score.compute_score true 0)%Z.
Proof.
  apply (proj1 (acceptance_needs_higher_score 5 false 0 true 0 ltac:(reflexivity))).
  vm_compute. discriminate.
Defined.

Section MoreQuality.

Lemma lint_lines_nonneg out : (0 <= lint_lines out)%Z.
Proof. unfold lint_lines. destruct (PyStr.truthy _); lia. Qed.

Lemma lint_verdict_nonneg t : (0 <= lint_verdict t)%Z.
Proof.
  unfold lint_verdict. destruct (run_flake8 t); [| lia].
  destruct (write_flake8_output t); [apply lint_lines_nonneg | lia].
Qed.

End MoreQuality.

(** X3. A measurement of [compute_quality] has a lint count that is not
    negative, hence a score of at most 100; and a working copy with neither
    a [tests] entry nor a [pytest.ini] passes its tests whatever the test
    runner would answer. The same holds of the copy of the function in
    [kai_decision_engine.py]. *)
Theorem measurement_bounds
    (t : tools) (wd : list string) (repo_dir : Posix.ppath) (disk : FS)
    (E : env) (w : world) :
  (forall tests_ok lint_count,
      Evaluator.compute_quality t wd repo_dir disk = Ok (tests_ok, lint_count) ->
      (0 <= lint_count)%Z
      /\ (Score.compute_score tests_ok lint_count <= 100)%Z
      /\ (has_tests wd repo_dir disk = false -> tests_ok = true))
  /\ (forall w' tests_ok lint_count,
      DecisionEngine.compute_quality E repo_dir w = (w', Ok (tests_ok, lint_count)) ->
      (0 <= lint_count)%Z
      /\ (Score.compute_score tests_ok lint_count <= 100)%Z
      /\ (has_tests (cwd E) repo_dir (fs w) = false -> tests_ok = true)).
Proof.
  split.
  - intros tests_ok lint_count. rewrite evaluator_compute_quality_eq. intros [= <- <-].
    pose proof (lint_verdict_nonneg t) as Hl.
    split; [exact Hl |]. split.
    + unfold Score.compute_score. destruct (tests_verdict _ _); lia.
    + now intros ->.
  - intros w' tests_ok lint_count H.
    destruct (engine_compute_quality_ok E repo_dir w) as (w'' & Hq & _).
    rewrite Hq in H. injection H as _ <- <-.
    pose proof (lint_verdict_nonneg (assess E (calls w CAssess) (fs w))) as Hl.
    split; [exact Hl |]. split.
    + unfold Score.compute_score. destruct (tests_verdict _ _); lia.
    + now intros ->.
Qed.

Lemma measurement_bounds_witness :
  (0 <= 3)%Z /\ (Score.compute_score true 3 <= 100)%Z
  /\ (has_tests (cwd quiet) specimen_repo_dir specimen_disk = false -> true = true).
Proof.
  apply (proj1 (measurement_bounds (tools_with_issues 3) (cwd quiet) specimen_repo_dir
                  specimen_disk quiet (start specimen_disk)) true 3%Z).
  vm_compute. reflexivity.
Defined.

(** X4. The exit status of the linter is not looked at: when it ran and
    its report could be written, the count is the number of lines of its
    stripped standard output, so a linter that ends with an error and
    prints nothing there counts as zero issues. *)
Theorem linter_status_ignored
    (t : tools) (cwd : list string) (repo_dir : Posix.ppath) (disk : FS) (r : completed) :
  run_flake8 t = Ok r ->
  write_flake8_output t = Ok tt ->
  (exists tests_ok,
      Evaluator.compute_quality t cwd repo_dir disk = Ok (tests_ok, lint_lines (stdout r)))
  /\ (PyStr.strip (stdout r) = "" ->
      exists tests_ok, Evaluator.compute_quality t cwd repo_dir disk = Ok (tests_ok, 0%Z)).
Proof.
  intros Hrun Hwrite. rewrite evaluator_compute_quality_eq.
  unfold lint_verdict. rewrite Hrun, Hwrite. split; [eauto |].
  intros Hempty. unfold lint_lines. rewrite Hempty. simpl. eauto.
Qed.

Lemma linter_status_ignored_witness :
  exists tests_ok,
    Evaluator.compute_quality crashed_linter (cwd quiet) specimen_repo_dir specimen_disk
    = Ok (tests_ok, 0%Z).
Proof.
  apply (proj2 (linter_status_ignored crashed_linter (cwd quiet) specimen_repo_dir specimen_disk
                  {| returncode := 2; stdout := " "; stderr := "flake8: error" |}
                  eq_refl eq_refl)).
  reflexivity.
Defined.

(** ** The allowlist *)

Section MoreStrings.
Import PyStr.

Lemma rstrip_idem s : rstrip (rstrip s) = rstrip s.
Proof.
  induction s as [|c r IH]; simpl; [reflexivity |].
  destruct (is_space c && is_empty (rstrip r)) eqn:Hc; simpl; [reflexivity |].
  now rewrite IH, Hc.
Qed.

Lemma lstrip_head s c r : lstrip s = String c r -> is_space c = false.
Proof.
  induction s as [|c' r' IH]; simpl; [discriminate |].
  destruct (is_space c') eqn:Hc; [exact IH |].
  now intros [= <- _].
Qed.

Lemma lstrip_rstrip_lstrip s : lstrip (rstrip (lstrip s)) = rstrip (lstrip s).
Proof.
  destruct (lstrip s) as [|c r] eqn:Hs; [reflexivity |].
  pose proof (lstrip_head _ _ _ Hs) as Hc.
  simpl. rewrite Hc. simpl. now rewrite Hc.
Qed.

Lemma strip_idem s : strip (strip s) = strip s.
Proof. unfold strip. now rewrite lstrip_rstrip_lstrip, rstrip_idem. Qed.

Lemma truthy_nonempty s : truthy s = true -> s <> "".
Proof. now destruct s. Qed.

End MoreStrings.

Section Allowlists.

Lemma allow_lines_entries lines : Forall is_entry (allow_lines lines).
Proof.
  induction lines as [|ln rest IH]; simpl; [constructor |].
  destruct (PyStr.truthy (PyStr.strip ln)) eqn:Ht; simpl; [| exact IH].
  destruct (PyStr.startswith "#" (PyStr.strip ln)) eqn:Hs; [exact IH |].
  constructor; [| exact IH].
  repeat split; [now apply truthy_nonempty | exact Hs | apply strip_idem].
Qed.

Lemma evolve_rows_slashed lines : KaiEvolve.rows lines = slashed (allow_lines lines).
Proof.
  unfold slashed. induction lines as [|ln rest IH]; simpl; [reflexivity |].
  destruct (negb _ || _); simpl; [exact IH |].
  destruct (PyStr.contains "/" (PyStr.strip ln)) eqn:Hc.
  - rewrite filter_cons_True by exact Hc. now rewrite IH.
  - rewrite filter_cons_False by (rewrite Hc; discriminate). exact IH.
Qed.

Lemma maintainer_rows_slashed lines : KaiMaintainer.rows lines = slashed (allow_lines lines).
Proof.
  unfold slashed. induction lines as [|ln rest IH]; simpl; [reflexivity |].
  destruct (negb _ || _); simpl; [exact IH |].
  destruct (PyStr.contains "/" (PyStr.strip ln)) eqn:Hc; simpl.
  - rewrite filter_cons_True by exact Hc. now rewrite IH.
  - rewrite filter_cons_False by (rewrite Hc; discriminate). exact IH.
Qed.

Lemma slashed_entries l : Forall is_entry l -> Forall is_entry (slashed l).
Proof.
  intros H. unfold slashed. rewrite Forall_forall in *.
  intros x Hx. apply H. now apply list_elem_of_filter in Hx as [_ Hx].
Qed.

Lemma stat_repos_txt cwd disk :
  Posix.stat cwd (Posix.path_of "repos.txt") disk
  = match disk !! (cwd ++ ["repos.txt"]) with
    | Some x => Ok x
    | None => Raise FileNotFoundError
    end.
Proof.
  change (Posix.path_of "repos.txt")
    with {| Posix.anchored := false; Posix.parts := ["repos.txt"] |}.
  unfold Posix.stat, Posix.origin. simpl. reflexivity.
Qed.

(** The absolute path of [kai_evolve.py] names the same file when the
    working directory is a real one. *)
Lemma stat_base_repos_txt cwd disk :
  Posix.has_nul (KaiEvolve.BASE cwd) = false ->
  Posix.walk disk [] cwd = Ok cwd ->
  Posix.stat cwd (Posix.joinpath (KaiEvolve.BASE cwd) (Posix.path_of "repos.txt")) disk
  = Posix.stat cwd (Posix.path_of "repos.txt") disk.
Proof.
  intros Hnul Hwalk. rewrite stat_repos_txt.
  change (Posix.path_of "repos.txt")
    with {| Posix.anchored := false; Posix.parts := ["repos.txt"] |}.
  unfold Posix.stat, Posix.joinpath, Posix.origin, Posix.has_nul in *. simpl in *.
  rewrite existsb_app, Hnul. simpl.
  rewrite removelast_last, last_snoc, Hwalk. simpl. reflexivity.
Qed.

Lemma read_allowlist_cases cwd disk :
  AgentCore.read_allowlist cwd disk
  = match disk !! (cwd ++ ["repos.txt"]) with
    | Some (File text) => Ok (allow_lines (PyStr.splitlines text))
    | Some Dir => Raise IsADirectoryError
    | None => Ok []
    end.
Proof.
  unfold AgentCore.read_allowlist, Posix.exists_, Posix.read_text.
  rewrite stat_repos_txt. now destruct (disk !! _) as [[|text]|].
Qed.

Lemma read_repos_list_cases cwd disk :
  KaiMaintainer.read_repos_list cwd disk
  = match disk !! (cwd ++ ["repos.txt"]) with
    | Some (File text) => Ok (slashed (allow_lines (PyStr.splitlines text)))
    | Some Dir => Raise IsADirectoryError
    | None => Raise FileNotFoundError
    end.
Proof.
  unfold KaiMaintainer.read_repos_list, Posix.read_text.
  rewrite stat_repos_txt. destruct (disk !! _) as [[|text]|]; simpl; try reflexivity.
  now rewrite maintainer_rows_slashed.
Qed.

Lemma read_repos_cases cwd disk :
  Posix.has_nul (KaiEvolve.BASE cwd) = false ->
  Posix.walk disk [] cwd = Ok cwd ->
  KaiEvolve.read_repos cwd disk
  = match disk !! (cwd ++ ["repos.txt"]) with
    | Some (File text) => Ok (slashed (allow_lines (PyStr.splitlines text)))
    | Some Dir => Raise IsADirectoryError
    | None => Raise FileNotFoundError
    end.
Proof.
  intros Hnul Hwalk. unfold KaiEvolve.read_repos, Posix.read_text.
  rewrite stat_base_repos_txt, stat_repos_txt by assumption.
  destruct (disk !! _) as [[|text]|]; simpl; try reflexivity.
  now rewrite evolve_rows_slashed.
Qed.

Lemma engine_read_allowlist_eq cwd disk :
  DecisionEngine.read_allowlist cwd disk = AgentCore.read_allowlist cwd disk.
Proof. reflexivity. Qed.

End Allowlists.

(** X5. Whichever of the four readers of [repos.txt] returns a list, each
    entry of it is a stripped line of the file: not empty, no white space at
    either end, and no [#] in front. *)
Theorem allowlist_entries_wellformed (cwd : list string) (disk : FS) (l : list string) :
  AgentCore.read_allowlist cwd disk = Ok l
  \/ DecisionEngine.read_allowlist cwd disk = Ok l
  \/ KaiEvolve.read_repos cwd disk = Ok l
  \/ KaiMaintainer.read_repos_list cwd disk = Ok l ->
  Forall is_entry l.
Proof.
  assert (Hallow : forall l', AgentCore.read_allowlist cwd disk = Ok l' -> Forall is_entry l').
  { intros l'. rewrite read_allowlist_cases.
    destruct (disk !! _) as [[|text]|]; intros [= <-];
      [apply allow_lines_entries | constructor]. }
  intros [H|[H|[H|H]]].
  - now apply Hallow.
  - rewrite engine_read_allowlist_eq in H. now apply Hallow.
  - unfold KaiEvolve.read_repos in H.
    destruct (Posix.read_text _ _ _) as [text|]; [| discriminate].
    injection H as <-. rewrite evolve_rows_slashed.
    apply slashed_entries, allow_lines_entries.
  - unfold KaiMaintainer.read_repos_list in H.
    destruct (Posix.read_text _ _ _) as [text|]; [| discriminate].
    injection H as <-. rewrite maintainer_rows_slashed.
    apply slashed_entries, allow_lines_entries.
Qed.

Lemma allowlist_entries_wellformed_witness :
  Forall is_entry ["acme/widget"; "notes"].
Proof.
  apply (allowlist_entries_wellformed ["srv"; "kai"] (home untidy_allowlist)).
  left. vm_compute. reflexivity.
Defined.

(** X6. [read_repos_list] of [kai_maintainer.py] against [read_allowlist]
    of [agent_core.py], on the same [repos.txt]: on a file, the maintainer
    keeps the entries of the allowlist that have a slash, in their order; on
    a directory both raise; and where the file is missing the allowlist is
    empty while the maintainer raises [FileNotFoundError]. *)
Theorem maintainer_list_against_allowlist (cwd : list string) (disk : FS) :
  match disk !! (cwd ++ ["repos.txt"]) with
  | Some (File _) =>
      exists allow,
        AgentCore.read_allowlist cwd disk = Ok allow
        /\ KaiMaintainer.read_repos_list cwd disk = Ok (slashed allow)
  | Some Dir =>
      AgentCore.read_allowlist cwd disk = Raise IsADirectoryError
      /\ KaiMaintainer.read_repos_list cwd disk = Raise IsADirectoryError
  | None =>
      AgentCore.read_allowlist cwd disk = Ok []
      /\ KaiMaintainer.read_repos_list cwd disk = Raise FileNotFoundError
  end.
Proof.
  rewrite read_allowlist_cases, read_repos_list_cases.
  destruct (disk !! _) as [[|text]|]; eauto.
Qed.

(** X7. [read_repos] of [kai_evolve.py] reads [repos.txt] below the
    working directory by its absolute path. Where the working directory is
    a real one, it answers as [read_repos_list] does: the slashed entries
    of the allowlist, and an error where the file is missing. *)
Theorem evolve_list_against_allowlist (cwd : list string) (disk : FS) :
  Posix.has_nul (KaiEvolve.BASE cwd) = false ->
  Posix.walk disk [] cwd = Ok cwd ->
  KaiEvolve.read_repos cwd disk = KaiMaintainer.read_repos_list cwd disk
  /\ match AgentCore.read_allowlist cwd disk with
     | Ok allow =>
         KaiEvolve.read_repos cwd disk = Ok (slashed allow)
         \/ (allow = [] /\ KaiEvolve.read_repos cwd disk = Raise FileNotFoundError)
     | Raise e => KaiEvolve.read_repos cwd disk = Raise e
     end.
Proof.
  intros Hnul Hwalk.
  rewrite (read_repos_cases _ _ Hnul Hwalk), read_repos_list_cases, read_allowlist_cases.
  split; [reflexivity |].
  destruct (disk !! _) as [[|text]|]; eauto.
Qed.

Lemma evolve_list_against_allowlist_witness :
  KaiEvolve.read_repos ["srv"; "kai"] (home untidy_allowlist)
  = KaiMaintainer.read_repos_list ["srv"; "kai"] (home untidy_allowlist).
Proof.
  apply (evolve_list_against_allowlist ["srv"; "kai"] (home untidy_allowlist));
    vm_compute; reflexivity.
Defined.

(** ** Applying a candidate *)

Section MoreApply.






Lemma safe_write_file_done cwd repo_dir relpath content disk disk' :
  AgentCore.safe_write_file cwd repo_dir relpath content disk = (disk', Ok tt) ->
  exists rel text,
    relpath = JStr rel /\ content = JStr text
    /\ Posix.stat cwd (Posix.joinpath repo_dir (Posix.path_of rel)) disk' = Ok (File text).
Proof.
  unfold AgentCore.safe_write_file.
  destruct relpath as [|b|lit|rel|items|members]; try discriminate.
  destruct (Posix.mkdir_parents _ _ _) as [disk1 [[]|e1]]; [| discriminate].
  destruct content as [|b|lit|text|items|members]; try discriminate.
  intros H. exists rel, text. repeat split.
  exact (write_text_stat _ _ _ _ _ H).
Qed.


End MoreApply.

(** X8. When [apply_candidate] answers [True], the candidate held a path
    and a content that are strings, the file at that path below the working
    copy now holds that content, and nothing was logged. *)
Theorem applied_candidate_is_written
    (cwd : list string) (repo_dir : Posix.ppath) (cand : json) (w w' : world) :
  AgentCore.apply_candidate cwd repo_dir cand w = (w', Ok true) ->
  exists rel text,
    Json.subscript cand "file" = Ok (JStr rel)
    /\ Json.subscript cand "new_content" = Ok (JStr text)
    /\ Posix.stat cwd (Posix.joinpath repo_dir (Posix.path_of rel)) (fs w') = Ok (File text)
    /\ trace w' = trace w.
Proof.
  unfold AgentCore.apply_candidate, try_catch, bind, of_result, lift_io, ret, log, emit.
  destruct (Json.subscript cand "file") as [file|]; [| intros [=]].
  destruct (Json.subscript cand "new_content") as [content|]; [| intros [=]].
  destruct (AgentCore.safe_write_file _ _ _ _ _) as [disk' [[]|e]] eqn:Hs; [| intros [=]].
  intros [= <-]. simpl.
  destruct (safe_write_file_done _ _ _ _ _ _ Hs) as (rel & text & -> & -> & Hstat).
  exists rel, text. auto.
Qed.

Lemma applied_candidate_is_written_witness :
  exists rel text,
    Json.subscript inner_candidate "file" = Ok (JStr rel)
    /\ Json.subscript inner_candidate "new_content" = Ok (JStr text)
    /\ Posix.stat (cwd quiet) (Posix.joinpath specimen_repo_dir (Posix.path_of rel))
         (fs (fst (AgentCore.apply_candidate (cwd quiet) specimen_repo_dir inner_candidate
                     (start specimen_disk)))) = Ok (File text)
    /\ trace (fst (AgentCore.apply_candidate (cwd quiet) specimen_repo_dir inner_candidate
                     (start specimen_disk))) = [].
Proof.
  apply (applied_candidate_is_written (cwd quiet) specimen_repo_dir inner_candidate
           (start specimen_disk)).
  destruct (AgentCore.apply_candidate _ _ _ _) as [w' r] eqn:H.
  simpl. f_equal.
  assert (Hr : snd (AgentCore.apply_candidate (cwd quiet) specimen_repo_dir inner_candidate
                      (start specimen_disk)) = Ok true) by (vm_compute; reflexivity).
  now rewrite H in Hr.
Defined.


(** ** Reverting a rejected candidate *)

Section MoreSplit.
Import PyStr.

Lemma append_nil_r s : s +:+ "" = s.
Proof.
  induction s as [|c r IH]; [reflexivity |].
  change (String c (r +:+ "") = String c r). now rewrite IH.
Qed.

Lemma append_snoc s c r : (s +:+ String c "") +:+ r = s +:+ String c r.
Proof.
  induction s as [|c' r' IH]; [reflexivity |].
  change (String c' ((r' +:+ String c "") +:+ r) = String c' (r' +:+ String c r)).
  now rewrite IH.
Qed.

Lemma split_from_cons sep cur s : exists x l, split_from sep cur s = x :: l.
Proof.
  revert cur. induction s as [|c r IH]; intros cur; simpl; [eauto |].
  destruct (Ascii.eqb c sep); eauto.
Qed.

Lemma split_from_single sep cur s b : split_from sep cur s = [b] -> b = cur +:+ s.
Proof.
  revert cur. induction s as [|c r IH]; intros cur; simpl.
  - intros [= <-]. now rewrite append_nil_r.
  - destruct (Ascii.eqb c sep).
    + destruct (split_from_cons sep "" r) as (x & l & ->). discriminate.
    + intros H. apply IH in H. now rewrite append_snoc in H.
Qed.

Lemma split_from_pair sep cur s a b :
  split_from sep cur s = [a; b] -> split1_from sep cur s = [a; b].
Proof.
  revert cur. induction s as [|c r IH]; intros cur; simpl; [discriminate |].
  destruct (Ascii.eqb c sep); [| apply IH].
  intros [= <- H]. apply split_from_single in H. simpl in H. now subst.
Qed.

(** A name of the form owner/name, with one slash: both ways of taking
    the name of the repository agree. *)
Lemma names_agree full owner name :
  split "/" full = [owner; name] ->
  AgentCore.repo_name full = Ok name /\ clone_name full = name.
Proof.
  intros H. unfold AgentCore.repo_name, clone_name, split1.
  rewrite (split_from_pair _ _ _ _ _ H), H. now split.
Qed.

End MoreSplit.

Section MoreRevert.
Context (E : env).

Lemma subtree_lookup (root : list string) (disk : FS) (l : list string) :
  Posix.subtree root disk !! l = if decide (root `prefix_of` l) then disk !! l else None.
Proof.
  unfold Posix.subtree. apply option_eq. intros x.
  rewrite map_lookup_filter_Some. simpl.
  case_decide; split; try tauto; discriminate.
Qed.

Lemma outside_lookup (root : list string) (disk : FS) (l : list string) :
  filter (fun kv : list string * node => ~ root `prefix_of` kv.1) disk !! l
  = if decide (root `prefix_of` l) then None else disk !! l.
Proof.
  apply option_eq. intros x.
  rewrite map_lookup_filter_Some. simpl.
  case_decide; split; try tauto; discriminate.
Qed.

Lemma clone_lookup_outside (root : list string) (tree : FS) (l : list string) :
  ~ root `prefix_of` l -> (kmap (fun k => root ++ k) tree : FS) !! l = None.
Proof.
  intros Hp. destruct ((kmap _ tree : FS) !! l) as [x|] eqn:Hk; [| reflexivity].
  apply lookup_kmap_Some in Hk as (i & -> & _); [| apply _].
  destruct Hp. now exists i.
Qed.

Lemma revert_run repo_dir full tree w :
  git_clone E (calls w CClone) = Some tree ->
  exists w',
    (rmtree E repo_dir ;; git_clone_into E AgentCore.work full) w = (w', Ok true)
    /\ fs w' = kmap (fun l => Posix.locate (cwd E)
                     (Posix.joinpath AgentCore.work (Posix.path_of (clone_name full))) ++ l) tree
               ∪ <[Posix.locate (cwd E)
                     (Posix.joinpath AgentCore.work (Posix.path_of (clone_name full))) := Dir]>
                 (Posix.rmtree (cwd E) repo_dir (fs w))
    /\ trace w' = trace w ++ [CloneRun true].
Proof.
  intros Hc. unfold rmtree, git_clone_into, bind, get_fs, set_fs, next, emit, ret. simpl.
  rewrite Hc. simpl. eexists. split; [reflexivity |]. simpl. split; reflexivity.
Qed.

End MoreRevert.

(** X10. In the loop of [process_repo] of [agent_core.py], a rejected
    candidate is undone by removing the working copy and cloning again. For
    a repository named owner/name whose working copy is a directory, when
    the clone succeeds the working copy holds the tree of the remote and
    nothing else, whatever the candidate had written, and nothing outside
    the working copy has changed. *)
Theorem rejected_candidate_reverted
    (E : env) (full owner name : string) (tree : FS) (w : world) :
  let repo_dir := Posix.joinpath AgentCore.work (Posix.path_of name) in
  let root := Posix.locate (cwd E) repo_dir in
  PyStr.split "/" full = [owner; name] ->
  Posix.stat (cwd E) repo_dir (fs w) = Ok Dir ->
  git_clone E (calls w CClone) = Some tree ->
  exists w',
    (rmtree E repo_dir ;; git_clone_into E AgentCore.work full) w = (w', Ok true)
    /\ Posix.subtree root (fs w') = kmap (fun l => root ++ l) tree ∪ {[ root := Dir ]}
    /\ (forall l, ~ root `prefix_of` l -> fs w' !! l = fs w !! l).
Proof.
  intros repo_dir root Hfull Hstat Hclone.
  destruct (names_agree _ _ _ Hfull) as [_ Hname].
  destruct (revert_run E repo_dir full tree w Hclone) as (w' & Hrun & Hfs & _).
  exists w'. split; [exact Hrun |].
  rewrite Hname in Hfs. fold repo_dir root in Hfs.
  unfold Posix.rmtree in Hfs. rewrite Hstat in Hfs. fold root in Hfs.
  rewrite Hfs. split.
  - apply map_eq. intros l. rewrite subtree_lookup, !lookup_union.
    case_decide as Hp.
    + destruct (kmap _ tree !! l) as [x|]; [now rewrite !union_Some_l |].
      rewrite !(left_id None _).
      destruct (decide (root = l)) as [<-|Hne].
      * now rewrite lookup_insert_eq, lookup_singleton_eq.
      * rewrite lookup_insert_ne, lookup_singleton_ne, outside_lookup by exact Hne.
        now rewrite decide_True.
    + rewrite clone_lookup_outside by exact Hp.
      rewrite (left_id None _).
      rewrite lookup_singleton_ne; [reflexivity |]. intros <-. now apply Hp.
  - intros l Hp. rewrite lookup_union, clone_lookup_outside by exact Hp.
    rewrite (left_id None _).
    rewrite lookup_insert_ne by (intros <-; now apply Hp).
    now rewrite outside_lookup, decide_False by exact Hp.
Qed.

Lemma rejected_candidate_reverted_witness :
  exists w',
    (rmtree refusing_host specimen_repo_dir ;;
     git_clone_into refusing_host AgentCore.work "acme/repo") (start specimen_disk)
    = (w', Ok true)
    /\ Posix.subtree specimen_root (fs w')
       = kmap (fun l => specimen_root ++ l) specimen_tree ∪ {[ specimen_root := Dir ]}
    /\ (forall l, ~ specimen_root `prefix_of` l -> fs w' !! l = specimen_disk !! l).
Proof.
  apply (rejected_candidate_reverted refusing_host "acme/repo" "acme" "repo" specimen_tree
           (start specimen_disk)); vm_compute; reflexivity.
Defined.

(** ** The order of the repositories *)

Section MoreRuns.
Context (E : env).

Lemma repos_entered_app tr1 tr2 :
  repos_entered (tr1 ++ tr2) = repos_entered tr1 ++ repos_entered tr2.
Proof.
  induction tr1 as [|e tr1 IH]; [reflexivity |].
  destruct e; simpl; rewrite IH; reflexivity.
Qed.

Lemma repos_entered_inside tr : Forall inside tr -> repos_entered tr = [].
Proof.
  induction 1 as [|e tr He _ IH]; [reflexivity |].
  destruct e; simpl; try exact IH. destruct He.
Qed.





End MoreRuns.

Section MoreEngineRuns.
Context (E : env).

Lemma engine_body_inside repo_full direct_push_env :
  emits_only inside (DecisionEngine.process_repo_body E repo_full direct_push_env).
Proof.
  unfold DecisionEngine.process_repo_body.
  unfold DecisionEngine.compute_quality, DecisionEngine.apply_mutations,
    DecisionEngine.snapshot_repo, DecisionEngine.commit_and_branch_push,
    git_clone_into, rmtree.
  eo.
Qed.

Lemma engine_process_repo_enters repo_full direct_push_env w w' r :
  DecisionEngine.process_repo E repo_full direct_push_env w = (w', r) ->
  r = Ok tt
  /\ exists tr, trace w' = trace w ++ RepoEntered repo_full :: tr /\ Forall inside tr.
Proof.
  unfold DecisionEngine.process_repo. intros H.
  apply bind_inv in H as [(w1 & [] & He & H) | (e & He & _)];
    apply emit_inv in He as [? T1]; [| discriminate].
  split.
  - apply try_catch_inv in H as [([] & _ & ->) | (w2 & e & _ & Hh)]; [reflexivity |].
    now apply emit_inv in Hh as [-> _].
  - assert (Hin : emits_only inside
              (try_catch (DecisionEngine.process_repo_body E repo_full direct_push_env)
                 (fun e => log (LogEngineError "Error processing" e)))).
    { apply eo_try_catch; [apply engine_body_inside | intros e; eo]. }
    destruct (Hin _ _ _ H) as (tr & T & F).
    exists tr. split; [| exact F]. now rewrite T, T1, <- app_assoc.
Qed.

Lemma engine_repo_loop_order direct_env allow :
  forall w w' r,
    DecisionEngine.repo_loop E direct_env allow w = (w', r) ->
    r = Ok tt /\ exists tr, trace w' = trace w ++ tr /\ repos_entered tr = allow.
Proof.
  induction allow as [|full rest IH]; intros w w' r H.
  - apply ret_inv in H as [-> ->]. split; [reflexivity |].
    exists []. split; [now rewrite app_nil_r | reflexivity].
  - cbn [DecisionEngine.repo_loop] in H.
    apply bind_inv in H as [(w2 & [] & Hrepo & H) | (e & Hrepo & _)];
      apply engine_process_repo_enters in Hrepo as (Hr & tr & T2 & F); [| discriminate].
    apply IH in H as (-> & tr' & T3 & Hall). split; [reflexivity |].
    exists (RepoEntered full :: tr ++ tr').
    split; [rewrite T3, T2; simpl; now rewrite <- !app_assoc |].
    cbn [repos_entered]. rewrite repos_entered_app, (repos_entered_inside tr F). simpl.
    now rewrite Hall.
Qed.

End MoreEngineRuns.



(** X12. A run of [kai_decision_engine.py] that has a credential and can
    read its allowlist returns, and enters every repository of the
    allowlist once, in the order of the file, whatever fails inside a
    repository: there is no sentinel to stop it. *)
Theorem engine_enters_every_repository (E : env) (disk : FS) (allow : list string) :
  falsy (DecisionEngine.token E) = false ->
  DecisionEngine.read_allowlist (cwd E) disk = Ok allow ->
  exists w,
    DecisionEngine.program E disk = (w, Returned)
    /\ repos_entered (trace w) = allow.
Proof.
  intros Htoken Hallow. unfold DecisionEngine.program.
  destruct (DecisionEngine.main E (start disk)) as [w r] eqn:H.
  unfold DecisionEngine.main in H. rewrite Htoken in H.
  apply bind_inv in H as [(w3 & disk' & Hg & H) | (e & Hg & _)];
    apply get_fs_inv in Hg as [Hd ->]; [| discriminate].
  injection Hd as ->. simpl fs in H. rewrite Hallow in H.
  apply bind_inv in H as [(w4 & allow' & Ha & H) | (e & [=] & _)]. injection Ha as <- <-.
  destruct allow as [|full rest].
  { apply bind_inv in H as [(w5 & [] & Hl & H) | (e & Hl & _)];
      apply emit_inv in Hl as [? T]; [| discriminate].
    apply ret_inv in H as [-> ->]. exists w5. split; [reflexivity |]. now rewrite T. }
  apply bind_inv in H as [(w5 & [] & Hl & H) | (e & Hl & _)];
    apply engine_repo_loop_order in Hl as (Hr & tr & T2 & Hall); [| discriminate].
  apply bind_inv in H as [(w6 & [] & Hl & H) | (e & Hl & _)];
    apply emit_inv in Hl as [? T3]; [| discriminate].
  apply ret_inv in H as [-> ->]. exists w6. split; [reflexivity |].
  rewrite T3, T2. simpl. rewrite repos_entered_app. simpl. now rewrite app_nil_r.
Qed.

Lemma engine_enters_every_repository_witness :
  exists w,
    DecisionEngine.program unimpressed (home two_repos) = (w, Returned)
    /\ repos_entered (trace w) = ["acme/first"; "acme/second"].
Proof.
  apply (engine_enters_every_repository unimpressed (home two_repos));
    vm_compute; reflexivity.
Defined.

(** ** What comes before a push *)

Section MorePushes.
Context (just : list event -> Prop).

Lemma pushes_after_none tr : Forall no_push tr -> pushes_after just tr.
Proof.
  intros F a b ->. apply Forall_app in F as [_ F].
  apply Forall_cons in F as [[] _].
Qed.

Lemma pushes_after_app tr1 tr2 :
  pushes_after just tr1 -> pushes_after just tr2 -> pushes_after just (tr1 ++ tr2).
Proof.
  intros H1 H2 a b Heq.
  apply app_eq_app in Heq as [l [[-> Hl] | [-> Hl]]].
  - destruct l as [|e l].
    + simpl in Hl. destruct (H2 [] b (eq_sym Hl)) as (a' & j & Ha & Hj).
      exists a, j. split; [| exact Hj].
      destruct a', j; try discriminate. now rewrite app_nil_r.
    + injection Hl as <- ->. exact (H1 _ _ eq_refl).
  - destruct (H2 _ _ Hl) as (a' & j & -> & Hj).
    exists (tr1 ++ a'), j. split; [now rewrite app_assoc | exact Hj].
Qed.

Lemma pushes_after_push j : just j -> Forall no_push j -> pushes_after just (j ++ [BranchPushed]).
Proof.
  intros Hj F a b Heq.
  apply app_eq_app in Heq as [l [[-> Hl] | [-> Hl]]].
  - destruct l as [|e l].
    + exists [], a. split; [reflexivity |]. now rewrite app_nil_r in Hj.
    + injection Hl as <- Hl. apply Forall_app in F as [_ F].
      apply Forall_cons in F as [[] _].
  - destruct l as [|e l]; [exists [], j; split; [now rewrite app_nil_r | exact Hj] |].
    injection Hl as _ Hl. now destruct l.
Qed.

Lemma poa_free {A} (m : M A) : emits_only no_push m -> pushes_only_after just m.
Proof.
  intros Hm w w' r H. destruct (Hm _ _ _ H) as (tr & T & F).
  exists tr. split; [exact T | now apply pushes_after_none].
Qed.

End MorePushes.

(** Both sides are the same events, bracketed differently. *)
Ltac trace_eq := repeat (progress (simpl; rewrite <- ?app_assoc)); reflexivity.

Section MoreAgentPushes.
Context (E : env) (cfg : config) (full : string) (repo_dir : Posix.ppath) (score_b : Z).
Local Abbreviation margin := (AgentCore.IMPROVEMENT_MARGIN cfg).
Local Abbreviation just := (measured_above margin score_b).

Lemma publish_pushes cand delta w w' r :
  AgentCore.publish E cand delta w = (w', r) ->
  exists tail, trace w' = trace w ++ BranchPushed :: tail /\ Forall no_push tail.
Proof.
  unfold AgentCore.publish. intros H.
  apply bind_inv in H as [(w1 & [] & He & H) | (e & He & _)];
    apply emit_inv in He as [? T1]; [| discriminate].
  match type of H with ?m w1 = _ => assert (Hm : emits_only no_push m) by eo end.
  destruct (Hm _ _ _ H) as (tail & T & F).
  exists tail. split; [| exact F]. now rewrite T, T1, <- app_assoc.
Qed.

Lemma log_no_push logs : Forall is_log logs -> Forall no_push logs.
Proof. intros F. eapply Forall_impl; [exact F |]. now intros []. Qed.

Lemma candidate_loop_pushes candidates :
  pushes_only_after just (AgentCore.candidate_loop E cfg full repo_dir score_b candidates).
Proof.
  induction candidates as [|cand rest IH]; intros w w' r H.
  - apply ret_inv in H as [-> ->]. exists []. split; [now rewrite app_nil_r |].
    apply pushes_after_none. constructor.
  - cbn [AgentCore.candidate_loop] in H.
    apply bind_inv in H as [(w1 & killed & Hk & H) | (e & Hk & _)];
      apply check_kill_inv in Hk as (present & Hp & T1); [| discriminate].
    injection Hp as ->.
    destruct present.
    { apply ret_inv in H as [-> ->]. exists [KillChecked true; Logged LogKill].
      split; [exact T1 |]. apply pushes_after_none. repeat constructor. }
    apply bind_inv in H as [(w2 & before & Hg & H) | (e & Hg & _)];
      apply get_fs_inv in Hg as [Hb ->]; [| discriminate].
    injection Hb as ->.
    apply bind_inv in H as [(w3 & ok & Ha & H) | (e & Ha & _)];
      [| apply apply_candidate_ok in Ha as [? [=]]].
    destruct (apply_candidate_logs _ _ _ _ _ _ Ha) as (logs & T3 & Flogs).
    apply bind_inv in H as [(w4 & [] & He & H) | (e & He & _)];
      apply emit_inv in He as [? T4]; [| discriminate].
    apply bind_inv in H as [(w5 & q & Hq & H) | (e & Hq & _)];
      apply compute_quality_inv in Hq as (tests_a & lint_a & Hq & T5); [| discriminate].
    injection Hq as ->. cbn [fst snd] in H.
    set (delta := Score.loop_delta score_b (AgentCore.compute_score tests_a lint_a)) in *.
    apply bind_inv in H as [(w6 & [] & He & H) | (e & He & _)];
      apply emit_inv in He as [? T6]; [| discriminate].
    assert (Hpre : Forall no_push (KillChecked false :: logs ++ [Applied cand (fs w1) ok])).
    { constructor; [exact I |]. apply Forall_app. split; [| repeat constructor].
      apply log_no_push, Flogs. }
    destruct (Qle_bool (AgentCore.IMPROVEMENT_MARGIN cfg) delta) eqn:Hmargin.
    + apply Qle_bool_iff in Hmargin.
      assert (Hj : just [Measured tests_a lint_a;
                         Logged (LogCandidateResult (AgentCore.compute_score tests_a lint_a) delta);
                         Logged LogImprovement]).
      { exists tests_a, lint_a. eexists. split; [reflexivity |]. split; [| exact Hmargin].
        repeat constructor. }
      assert (Hblock : forall tail,
                Forall no_push tail ->
                pushes_after just
                  ((KillChecked false :: logs ++ [Applied cand (fs w1) ok])
                   ++ ([Measured tests_a lint_a;
                        Logged (LogCandidateResult (AgentCore.compute_score tests_a lint_a) delta);
                        Logged LogImprovement] ++ [BranchPushed]) ++ tail)).
      { intros tail Ftail. apply pushes_after_app; [now apply pushes_after_none |].
        apply pushes_after_app; [| now apply pushes_after_none].
        apply pushes_after_push; [exact Hj | repeat constructor]. }
      apply bind_inv in H as [(w7 & [] & He & H) | (e & He & _)];
        apply emit_inv in He as [? T7]; [| discriminate].
      apply bind_inv in H as [(w8 & published & Hpub & H) | (e & Hpub & _)].
      * apply try_catch_inv in Hpub as [(? & Hpub & [= <-]) | (w9 & e & Hpub & Hh)].
        -- apply bind_inv in Hpub as [(w9 & [] & Hpub & Hr) | (e & Hpub & [=])].
           apply ret_inv in Hr as [[= ->] ->].
           apply ret_inv in H as [-> ->].
           apply publish_pushes in Hpub as (tail & T8 & Ftail).
           eexists. split; [| exact (Hblock tail Ftail)].
           rewrite T8, T7, T6, T5, T4, T3, T1. trace_eq.
        -- apply bind_inv in Hpub as [(w10 & [] & Hpub & Hr) | (e' & Hpub & _)];
             [apply ret_inv in Hr as [[=] _] |].
           apply publish_pushes in Hpub as (tail & T9 & Ftail).
           apply bind_inv in Hh as [(w10 & [] & He & Hr) | (e'' & He & _)];
             apply emit_inv in He as [? T10]; [| discriminate].
           apply ret_inv in Hr as [[= ->] ->].
           apply IH in H as (tr & T & Htr).
           eexists. split.
           2: { apply pushes_after_app; [| exact Htr].
                apply (Hblock (tail ++ [Logged (LogPushFailed e)])).
                apply Forall_app. split; [exact Ftail | repeat constructor]. }
           rewrite T, T10, T9, T7, T6, T5, T4, T3, T1. trace_eq.
      * apply try_catch_inv in Hpub as [(? & _ & [=]) | (w9 & e' & Hpub & Hh)].
        apply bind_inv in Hh as [(w10 & [] & He & Hr) | (e'' & He & _)];
          apply emit_inv in He as [? T10]; [| discriminate].
        now apply ret_inv in Hr as [[=] _].
    + apply bind_inv in H as [(w7 & [] & He & H) | (e & He & _)];
        apply emit_inv in He as [? T7]; [| discriminate].
      apply bind_inv in H as [(w8 & [] & Hrm & H) | (e & Hrm & _)];
        [| apply rmtree_ok in Hrm; discriminate].
      assert (Hrm' : emits_only no_push (rmtree E repo_dir)) by (unfold rmtree; eo).
      destruct (Hrm' _ _ _ Hrm) as (tr8 & T8 & F8).
      apply bind_inv in H as [(w9 & cloned & Hcl & H) | (e & Hcl & _)];
        [| apply git_clone_into_ok in Hcl as [? [=]]].
      assert (Hcl' : emits_only no_push (git_clone_into E AgentCore.work full))
        by (unfold git_clone_into; eo).
      destruct (Hcl' _ _ _ Hcl) as (tr9 & T9 & F9).
      apply IH in H as (tr & T & Htr).
      exists ((KillChecked false :: logs ++ [Applied cand (fs w1) ok])
              ++ ([Measured tests_a lint_a;
                   Logged (LogCandidateResult (AgentCore.compute_score tests_a lint_a) delta);
                   Rejected cand delta] ++ tr8 ++ tr9) ++ tr).
      split; [rewrite T, T9, T8, T7, T6, T5, T4, T3, T1; trace_eq |].
      apply pushes_after_app; [now apply pushes_after_none |].
      apply pushes_after_app; [| exact Htr].
      apply pushes_after_none. repeat constructor. apply Forall_app. now split.
Qed.

End MoreAgentPushes.

Section MoreEnginePushes.
Context (E : env).
Local Abbreviation margin := DecisionEngine.IMPROVEMENT_MARGIN.
Local Abbreviation just := (accepted_above margin).

Lemma poa_after {A B} (m : M A) (k : A -> M B) :
  emits_only no_push m -> (forall a, pushes_only_after just (k a)) ->
  pushes_only_after just (bind m k).
Proof.
  intros Hm Hk w w' r H.
  apply bind_inv in H as [(w1 & a & H1 & H2) | (e & H1 & _)].
  - destruct (Hm _ _ _ H1) as (tr & T & F), (Hk _ _ _ _ H2) as (tr' & T' & Hp).
    exists (tr ++ tr'). split; [now rewrite T', T, app_assoc |].
    apply pushes_after_app; [now apply pushes_after_none | exact Hp].
  - exact (poa_free just m Hm _ _ _ H1).
Qed.

Lemma poa_before {A B} (m : M A) (k : A -> M B) :
  pushes_only_after just m -> (forall a, emits_only no_push (k a)) ->
  pushes_only_after just (bind m k).
Proof.
  intros Hm Hk w w' r H.
  apply bind_inv in H as [(w1 & a & H1 & H2) | (e & H1 & _)].
  - destruct (Hm _ _ _ H1) as (tr & T & Hp), (Hk _ _ _ _ H2) as (tr' & T' & F).
    exists (tr ++ tr'). split; [now rewrite T', T, app_assoc |].
    apply pushes_after_app; [exact Hp | now apply pushes_after_none].
  - exact (Hm _ _ _ H1).
Qed.

Lemma poa_try {A} (body : M A) handler :
  pushes_only_after just body -> (forall e, emits_only no_push (handler e)) ->
  pushes_only_after just (try_catch body handler).
Proof.
  intros Hb Hh w w' r H.
  apply try_catch_inv in H as [(a & H1 & _) | (w1 & e & H1 & H2)].
  - exact (Hb _ _ _ H1).
  - destruct (Hb _ _ _ H1) as (tr & T & Hp), (Hh _ _ _ _ H2) as (tr' & T' & F).
    exists (tr ++ tr'). split; [now rewrite T', T, app_assoc |].
    apply pushes_after_app; [exact Hp | now apply pushes_after_none].
Qed.

Lemma commit_pushes direct_push w w' r :
  DecisionEngine.commit_and_branch_push E direct_push w = (w', r) ->
  exists tail, trace w' = trace w ++ BranchPushed :: tail /\ Forall no_push tail.
Proof.
  unfold DecisionEngine.commit_and_branch_push. destruct direct_push.
  - intros [= <- _]. exists []. split; [reflexivity | constructor].
  - intros H.
    assert (Hbody : forall w0 w1 (r1 : result (option Z)),
              (emit BranchPushed ;;
               let* n := next CPull in
               let* number := of_result (create_pull E n) in
               emit (PullRequestOpened number) ;;
               log (LogEngineCreatedPR number) ;;
               ret (Some number)) w0 = (w1, r1) ->
              exists tail, trace w1 = trace w0 ++ BranchPushed :: tail /\ Forall no_push tail).
    { intros w0 w1 r1 H0.
      apply bind_inv in H0 as [(w2 & [] & He & H0) | (e & He & _)];
        apply emit_inv in He as [? T1]; [| discriminate].
      match type of H0 with ?m w2 = _ => assert (Hm : emits_only no_push m) by eo end.
      destruct (Hm _ _ _ H0) as (tail & T & F).
      exists tail. split; [| exact F]. now rewrite T, T1, <- app_assoc. }
    apply try_catch_inv in H as [(a & H1 & _) | (w1 & e & H1 & H2)].
    + exact (Hbody _ _ _ H1).
    + destruct (Hbody _ _ _ H1) as (tail & T & F).
      match type of H2 with ?m w1 = _ => assert (Hm : emits_only no_push m) by eo end.
      destruct (Hm _ _ _ H2) as (tail' & T' & F').
      exists (tail ++ tail'). split; [rewrite T', T; now rewrite <- app_assoc |].
      now apply Forall_app.
Qed.

Lemma poa_accept {B} delta direct_push (k : option Z -> M B) :
  (margin <= delta)%Q -> (forall a, emits_only no_push (k a)) ->
  pushes_only_after just
    (emit (EngineAccepted delta) ;;
     let* pr_num := DecisionEngine.commit_and_branch_push E direct_push in k pr_num).
Proof.
  intros Hd Hk w w' r H.
  apply bind_inv in H as [(w1 & [] & H1 & H2) | (e & H1 & _)];
    apply emit_inv in H1 as [? T]; [| discriminate].
  assert (Hj : just [EngineAccepted delta]) by (exists delta; now split).
  apply bind_inv in H2 as [(w2 & a & H2 & H3) | (e & H2 & _)];
    apply commit_pushes in H2 as (tail & T2 & F2).
  - destruct (Hk _ _ _ _ H3) as (tr' & T' & F').
    exists (([EngineAccepted delta] ++ [BranchPushed]) ++ tail ++ tr').
    split; [rewrite T', T2, T; trace_eq |].
    apply pushes_after_app; [apply pushes_after_push; [exact Hj | repeat constructor] |].
    apply pushes_after_none. now apply Forall_app.
  - exists (([EngineAccepted delta] ++ [BranchPushed]) ++ tail).
    split; [rewrite T2, T; trace_eq |].
    apply pushes_after_app; [apply pushes_after_push; [exact Hj | repeat constructor] |].
    now apply pushes_after_none.
Qed.

Ltac engine_quiet :=
  unfold DecisionEngine.compute_quality, DecisionEngine.apply_mutations,
    DecisionEngine.snapshot_repo, git_clone_into, rmtree;
  eo.

Lemma engine_process_repo_pushes repo_full direct_push_env :
  pushes_only_after just (DecisionEngine.process_repo E repo_full direct_push_env).
Proof.
  unfold DecisionEngine.process_repo.
  apply poa_after; [eo | intros _].
  apply poa_try; [| intros e; eo].
  unfold DecisionEngine.process_repo_body.
  repeat first
    [ apply poa_after; [solve [engine_quiet] | intros ?]
    | match goal with
      | |- pushes_only_after _ (if negb ?c then _ else _) => destruct c; cbn [negb]
      end
    | apply poa_free; solve [engine_quiet] ].
  apply poa_before; [| intros _; engine_quiet].
  destruct (Qle_bool _ _) eqn:Hmargin.
  - apply Qle_bool_iff in Hmargin.
    apply poa_after; [eo | intros _].
    apply poa_accept; [exact Hmargin | intros pr; engine_quiet].
  - apply poa_free. engine_quiet.
Qed.

End MoreEnginePushes.

(** X13. In the loop over the candidates of [agent_core.py], every push
    of a branch comes right after the measurement of the candidate just
    applied, with log lines only in between, and the delta of that
    measurement over the baseline reaches the margin: nothing is pushed for a
    candidate below the margin. *)
Theorem agent_pushes_follow_measurement
    (E : env) (cfg : config) (full : string) (repo_dir : Posix.ppath) (score_b : Z)
    (candidates : list json) (w : world) (a b : list event) :
  events_of (AgentCore.candidate_loop E cfg full repo_dir score_b candidates) w
  = a ++ BranchPushed :: b ->
  exists a' tests_a lint_a logs,
    a = a' ++ Measured tests_a lint_a :: logs
    /\ Forall is_log logs
    /\ (AgentCore.IMPROVEMENT_MARGIN cfg
        <= Score.loop_delta score_b (Score.compute_score tests_a lint_a))%Q.
Proof.
  intros Hab.
  destruct (AgentCore.candidate_loop E cfg full repo_dir score_b candidates w) as [w' r] eqn:H.
  destruct (candidate_loop_pushes E cfg full repo_dir score_b candidates _ _ _ H)
    as (tr & T & Hp).
  rewrite (events_of_eq _ _ _ _ _ H T) in Hab.
  destruct (Hp a b Hab) as (a' & j & -> & tests_a & lint_a & logs & -> & Flogs & Hm).
  exists a', tests_a, lint_a, logs. auto.
Qed.

Lemma agent_pushes_follow_measurement_witness :
  exists a' tests_a lint_a logs,
    take 11 specimen_loop_events = a' ++ Measured tests_a lint_a :: logs
    /\ Forall is_log logs
    /\ (AgentCore.IMPROVEMENT_MARGIN no_options
        <= Score.loop_delta 90 (Score.compute_score tests_a lint_a))%Q.
Proof.
  apply (agent_pushes_follow_measurement refusing_host no_options "acme/widget" widget_dir 90
           [first_candidate; second_candidate] (start (home one_repo))
           (take 11 specimen_loop_events) (drop 12 specimen_loop_events)).
  symmetry. apply take_drop_middle. vm_compute. reflexivity.
Defined.

(** X14. In [process_repo] of [kai_decision_engine.py], every push of a
    branch comes right after the acceptance, and the delta accepted is at
    least 5: a rejected repository has nothing pushed. *)
Theorem engine_pushes_follow_acceptance
    (E : env) (repo_full direct_push_env : string) (w : world) (a b : list event) :
  events_of (DecisionEngine.process_repo E repo_full direct_push_env) w
  = a ++ BranchPushed :: b ->
  exists a' delta, a = a' ++ [EngineAccepted delta] /\ (5 <= delta)%Q.
Proof.
  intros Hab.
  destruct (DecisionEngine.process_repo E repo_full direct_push_env w) as [w' r] eqn:H.
  destruct (engine_process_repo_pushes E repo_full direct_push_env _ _ _ H) as (tr & T & Hp).
  rewrite (events_of_eq _ _ _ _ _ H T) in Hab.
  destruct (Hp a b Hab) as (a' & j & -> & delta & -> & Hm).
  exists a', delta. auto.
Qed.

Lemma engine_pushes_follow_acceptance_witness :
  exists a' delta,
    take 13 specimen_engine_events = a' ++ [EngineAccepted delta] /\ (5 <= delta)%Q.
Proof.
  apply (engine_pushes_follow_acceptance refusing_host "acme/widget" "false"
           (start (home one_repo))
           (take 13 specimen_engine_events) (drop 14 specimen_engine_events)).
  symmetry. apply take_drop_middle. vm_compute. reflexivity.
Defined.

Section MoreDirectPush.
Context (E : env).

Lemma direct_push_quiet :
  emits_only no_pull_request (DecisionEngine.commit_and_branch_push E true).
Proof. unfold DecisionEngine.commit_and_branch_push. eo. Qed.

Lemma engine_direct_push_quiet repo_full direct_push_env :
  PyStr.lower direct_push_env = "true" ->
  emits_only no_pull_request (DecisionEngine.process_repo E repo_full direct_push_env).
Proof.
  intros Hd. unfold DecisionEngine.process_repo, DecisionEngine.process_repo_body.
  rewrite Hd. change (String.eqb "true" "true") with true.
  unfold DecisionEngine.compute_quality, DecisionEngine.apply_mutations,
    DecisionEngine.snapshot_repo, git_clone_into, rmtree.
  unfold log; repeat first [apply direct_push_quiet | eo_step].
Qed.

End MoreDirectPush.

(** X15. With [DIRECT_PUSH] set to [true], in upper or lower case, the
    decision engine opens no pull request on a repository, accepted or
    not. *)
Theorem direct_push_opens_no_pull_request
    (E : env) (repo_full direct_push_env : string) (w : world) :
  PyStr.lower direct_push_env = "true" ->
  Forall no_pull_request
    (events_of (DecisionEngine.process_repo E repo_full direct_push_env) w).
Proof.
  intros Hd.
  destruct (DecisionEngine.process_repo E repo_full direct_push_env w) as [w' r] eqn:H.
  destruct (engine_direct_push_quiet E repo_full direct_push_env Hd _ _ _ H) as (tr & T & F).
  now rewrite (events_of_eq _ _ _ _ _ H T).
Qed.

Lemma direct_push_opens_no_pull_request_witness :
  Forall no_pull_request
    (events_of (DecisionEngine.process_repo refusing_host "acme/widget" "True")
               (start (home one_repo))).
Proof.
  apply (direct_push_opens_no_pull_request refusing_host "acme/widget" "True").
  vm_compute. reflexivity.
Defined.

(** ** What the safe mutations write *)

Section MoreMutations.
Context (cwd : list string) (repo_dir : Posix.ppath).

Local Abbreviation child n :=
  (Posix.joinpath repo_dir {| Posix.anchored := false; Posix.parts := [n] |}).
Local Abbreviation home_of disk :=
  (Posix.walk disk (Posix.origin cwd repo_dir) (Posix.parts repo_dir)).





Lemma ensure_badge_done disk disk' :
  Evolve.ensure_badge cwd repo_dir disk = (disk', Ok tt) ->
  exists txt,
    Posix.read_text cwd (Posix.joinpath repo_dir (Posix.path_of "README.md")) disk' = Ok txt
    /\ PyStr.contains "Maintained by Kai" txt = true.
Proof.
  unfold Evolve.ensure_badge.
  set (readme := Posix.joinpath repo_dir (Posix.path_of "README.md")).
  destruct (Posix.exists_ cwd readme disk).
  - destruct (Posix.read_text cwd readme disk) as [txt|e] eqn:Hread; [| discriminate].
    destruct (PyStr.contains "Maintained by Kai" txt) eqn:Hin; simpl.
    + intros [= <-]. eauto.
    + intros Hw. eexists. split; [| apply marker_in_badged].
      unfold Posix.read_text. now rewrite (write_text_stat _ _ _ _ _ Hw).
  - intros Hw. eexists. split; [| apply marker_in_new_readme].
    unfold Posix.read_text. now rewrite (write_text_stat _ _ _ _ _ Hw).
Qed.

End MoreMutations.

(** X16. When [apply_safe_mutations] of [kai_maintainer.py] returns, the
    working copy has an [.editorconfig], and a [README.md] that carries the
    badge. The same holds of [ensure_editorconfig] followed by
    [ensure_badge] in [kai_evolve.py]. *)
Theorem safe_mutations_establish
    (cwd : list string) (repo_dir : Posix.ppath) (disk disk' : FS) :
  Maintainer.apply_safe_mutations cwd repo_dir disk = (disk', Ok tt)
  \/ (exists disk1,
        Evolve.ensure_editorconfig cwd repo_dir disk = (disk1, Ok tt)
        /\ Evolve.ensure_badge cwd repo_dir disk1 = (disk', Ok tt)) ->
  Posix.exists_ cwd (Posix.joinpath repo_dir (Posix.path_of ".editorconfig")) disk' = true
  /\ exists txt,
       Posix.read_text cwd (Posix.joinpath repo_dir (Posix.path_of "README.md")) disk' = Ok txt
       /\ PyStr.contains "Maintained by Kai" txt = true.
Proof.
  intros H.
  assert (Hseq : exists disk1,
             Evolve.ensure_editorconfig cwd repo_dir disk = (disk1, Ok tt)
             /\ Evolve.ensure_badge cwd repo_dir disk1 = (disk', Ok tt)).
  { destruct H as [H | H]; [| exact H].
    rewrite apply_safe_mutations_seq in H.
    destruct (Evolve.ensure_editorconfig cwd repo_dir disk) as [disk1 [[]|e]]; [eauto | discriminate]. }
  destruct Hseq as (disk1 & H1 & H2). split.
  - eapply ensure_badge_keeps_exists; [exact H2 |].
    eapply ensure_editorconfig_done; exact H1.
  - eapply ensure_badge_done; exact H2.
Qed.

Lemma safe_mutations_establish_witness :
  Posix.exists_ (cwd quiet) (Posix.joinpath specimen_repo_dir (Posix.path_of ".editorconfig"))
    (after (Maintainer.apply_safe_mutations (cwd quiet) specimen_repo_dir) specimen_disk) = true
  /\ exists txt,
       Posix.read_text (cwd quiet) (Posix.joinpath specimen_repo_dir (Posix.path_of "README.md"))
         (after (Maintainer.apply_safe_mutations (cwd quiet) specimen_repo_dir) specimen_disk)
       = Ok txt
       /\ PyStr.contains "Maintained by Kai" txt = true.
Proof.
  apply (safe_mutations_establish (cwd quiet) specimen_repo_dir specimen_disk).
  left. unfold after.
  destruct (Maintainer.apply_safe_mutations _ _ _) as [disk' r] eqn:H. simpl. f_equal.
  assert (Hr : snd (Maintainer.apply_safe_mutations (cwd quiet) specimen_repo_dir specimen_disk)
               = Ok tt) by (vm_compute; reflexivity).
  now rewrite H in Hr.
Defined.


(** ** The memory *)

Section MoreMemory.
Context (dumps : json -> string) (cwd : list string).

Lemma stat_mem_file disk :
  Posix.stat cwd Memory.MEM_FILE disk
  = match disk !! (cwd ++ ["kai_memory.json"]) with
    | Some x => Ok x
    | None => Raise FileNotFoundError
    end.
Proof.
  change Memory.MEM_FILE
    with {| Posix.anchored := false; Posix.parts := ["kai_memory.json"] |}.
  unfold Posix.stat, Posix.origin. simpl. reflexivity.
Qed.

Lemma load_cases disk :
  Memory._load cwd disk
  = match disk !! (cwd ++ ["kai_memory.json"]) with
    | Some (File content) =>
        match Json.loads content with
        | Ok v => Ok v
        | Raise _ => Ok (JArr [])
        end
    | _ => Ok (JArr [])
    end.
Proof.
  unfold Memory._load, Posix.exists_, Posix.read_text. rewrite stat_mem_file.
  destruct (disk !! _) as [[|content]|]; simpl; reflexivity.
Qed.

Lemma load_ok disk : exists mem, Memory._load cwd disk = Ok mem.
Proof.
  rewrite load_cases. destruct (disk !! _) as [[|content]|]; eauto.
  destruct (Json.loads content); eauto.
Qed.

End MoreMemory.



(** X19. [_load] never raises. When the memory file holds JSON that is
    not a list (an object, a string, a number, a constant), every
    [add_memory] raises [AttributeError] and leaves the filesystem as it
    was, so that the next one raises again. *)
Theorem memory_that_is_no_list_refuses
    (dumps : json -> string) (cwd : list string) (disk : FS) (content : string) (v : json) :
  disk !! (cwd ++ ["kai_memory.json"]) = Some (File content) ->
  Json.loads content = Ok v ->
  (forall items, v <> JArr items) ->
  Memory._load cwd disk = Ok v
  /\ forall text meta ts,
       Memory.add_memory dumps cwd text meta ts disk = (disk, Raise AttributeError).
Proof.
  intros Hfile Hv Hlist.
  assert (Hload : Memory._load cwd disk = Ok v) by now rewrite load_cases, Hfile, Hv.
  split; [exact Hload |].
  intros text meta ts. unfold Memory.add_memory. rewrite Hload.
  destruct v as [|b|lit|s|items|members]; try reflexivity. now destruct (Hlist items).
Qed.

Lemma memory_that_is_no_list_refuses_witness :
  Memory._load ["srv"; "kai"] {[ ["srv"; "kai"; "kai_memory.json"] := File "{}" ]} = Ok (JObj [])
  /\ forall text meta ts,
       Memory.add_memory specimen_dumps ["srv"; "kai"] text meta ts
         {[ ["srv"; "kai"; "kai_memory.json"] := File "{}" ]}
       = ({[ ["srv"; "kai"; "kai_memory.json"] := File "{}" ]}, Raise AttributeError).
Proof.
  apply (memory_that_is_no_list_refuses specimen_dumps ["srv"; "kai"]
           {[ ["srv"; "kai"; "kai_memory.json"] := File "{}" ]} "{}" (JObj [])).
  - vm_compute. reflexivity.
  - vm_compute. reflexivity.
  - discriminate.
Defined.

(** ** The two copies of the assessor *)


(** ** The candidates of a repository *)

Section MoreCandidates.
Context (E : env) (cfg : config).

Lemma eo_of_result_bind {A B} ok (r : result A) (k : A -> M B) :
  (forall a, r = Ok a -> emits_only ok (k a)) -> emits_only ok (bind (of_result r) k).
Proof.
  intros Hk w w' r' H. unfold bind, of_result in H. destruct r as [a|e].
  - exact (Hk a eq_refl _ _ _ H).
  - injection H as <- _. exists []. split; [now rewrite app_nil_r | constructor].
Qed.

Lemma idle_body full :
  (forall n, Planner.propose_candidates (completion E n) = Ok (JArr [])) ->
  emits_only untouched (AgentCore.process_repo_body E cfg full).
Proof.
  intros Hidle. unfold AgentCore.process_repo_body.
  unfold AgentCore.compute_quality, AgentCore.snapshot, git_clone_into, rmtree.
  unfold log.
  repeat first
    [ rewrite Hidle; cbn [Json.iterate];
      apply eo_of_result_bind; intros ? [= <-];
      apply eo_of_result_bind; intros ? [= <-]; cbn [AgentCore.candidate_loop length]
    | eo_step ].
Qed.

Lemma applied_app tr1 tr2 :
  (applications (tr1 ++ tr2)).*1 = (applications tr1).*1 ++ (applications tr2).*1.
Proof.
  induction tr1 as [|e tr1 IH]; [reflexivity |].
  destruct e; simpl; try exact IH. f_equal. exact IH.
Qed.

Lemma applied_none tr : Forall not_applied tr -> (applications tr).*1 = [].
Proof.
  induction 1 as [|e tr He _ IH]; [reflexivity |].
  destruct e; simpl; try exact IH. destruct He.
Qed.

Lemma aio_free {A} cands (m : M A) : emits_only not_applied m -> applies_in_order cands m.
Proof.
  intros Hm w w' r H. destruct (Hm _ _ _ H) as (tr & T & F).
  exists tr. split; [exact T |]. rewrite applied_none by exact F. apply prefix_nil.
Qed.

Lemma aio_after {A B} cands (m : M A) (k : A -> M B) :
  emits_only not_applied m -> (forall a, applies_in_order cands (k a)) ->
  applies_in_order cands (bind m k).
Proof.
  intros Hm Hk w w' r H.
  apply bind_inv in H as [(w1 & a & H1 & H2) | (e & H1 & _)].
  - destruct (Hm _ _ _ H1) as (tr & T & F), (Hk _ _ _ _ H2) as (tr' & T' & Hp).
    exists (tr ++ tr'). split; [now rewrite T', T, app_assoc |].
    now rewrite applied_app, applied_none by exact F.
  - exact (aio_free cands m Hm _ _ _ H1).
Qed.

Lemma aio_applied {B} cand before ok rest (k : M B) :
  applies_in_order rest k ->
  applies_in_order (cand :: rest) (emit (Applied cand before ok) ;; k).
Proof.
  intros Hk w w' r H.
  apply bind_inv in H as [(w1 & [] & H1 & H2) | (e & H1 & _)];
    apply emit_inv in H1 as [? T]; [| discriminate].
  destruct (Hk _ _ _ H2) as (tr & T' & Hp).
  exists (Applied cand before ok :: tr). split; [rewrite T', T; now rewrite <- app_assoc |].
  simpl. now apply prefix_cons.
Qed.

Lemma candidate_loop_in_order full repo_dir score_b candidates :
  applies_in_order candidates
    (AgentCore.candidate_loop E cfg full repo_dir score_b candidates).
Proof.
  induction candidates as [|cand rest IH]; cbn [AgentCore.candidate_loop].
  - apply aio_free. eo.
  - apply aio_after; [unfold AgentCore.check_kill; eo | intros killed].
    destruct killed; [apply aio_free; eo |].
    apply aio_after; [eo | intros before].
    apply aio_after; [unfold AgentCore.apply_candidate; eo | intros ok].
    apply aio_applied.
    apply aio_after; [unfold AgentCore.compute_quality; eo | intros q].
    apply aio_after; [eo | intros _].
    destruct (Qle_bool _ _).
    + apply aio_after; [eo | intros _].
      apply aio_after; [unfold AgentCore.publish; eo | intros published].
      destruct published; [apply aio_free; eo | exact IH].
    + apply aio_after; [eo | intros _].
      apply aio_after; [unfold rmtree; eo | intros _].
      apply aio_after; [unfold git_clone_into; eo | intros _].
      exact IH.
Qed.

End MoreCandidates.

(** X21. When the planner has nothing to propose, because the answer of
    the backend is not JSON or is the empty list, [process_repo] of
    [agent_core.py] leaves the repository alone: the baseline is measured,
    and no candidate is applied, accepted or rejected, nothing is pushed and
    no pull request is opened. *)
Theorem idle_planner_leaves_repository_alone
    (E : env) (cfg : config) (full : string) (w : world) :
  (forall n, Planner.propose_candidates (completion E n) = Ok (JArr [])) ->
  Forall untouched (events_of (AgentCore.process_repo E cfg full) w).
Proof.
  intros Hidle.
  assert (Hm : emits_only untouched (AgentCore.process_repo E cfg full)).
  { unfold AgentCore.process_repo.
    apply eo_bind; [eo | intros _].
    apply eo_try_catch; [now apply idle_body | intros e; eo]. }
  destruct (AgentCore.process_repo E cfg full w) as [w' r] eqn:H.
  destruct (Hm _ _ _ H) as (tr & T & F).
  now rewrite (events_of_eq _ _ _ _ _ H T).
Qed.

Lemma idle_planner_leaves_repository_alone_witness :
  Forall untouched
    (events_of (AgentCore.process_repo planner_down no_options "acme/widget")
               (start (home one_repo))).
Proof.
  apply (idle_planner_leaves_repository_alone planner_down no_options "acme/widget").
  intros n. vm_compute. reflexivity.
Defined.

(** X22. The loop over the candidates of [agent_core.py] applies the
    candidates in the order the planner gave them, each at most once and
    none left out before the last one applied: the candidates applied are
    the first ones of the list. *)
Theorem candidates_applied_in_order
    (E : env) (cfg : config) (full : string) (repo_dir : Posix.ppath) (score_b : Z)
    (candidates : list json) (w : world) :
  (applications
     (events_of (AgentCore.candidate_loop E cfg full repo_dir score_b candidates) w)).*1
  `prefix_of` candidates.
Proof.
  destruct (AgentCore.candidate_loop E cfg full repo_dir score_b candidates w) as [w' r] eqn:H.
  destruct (candidate_loop_in_order E cfg full repo_dir score_b candidates _ _ _ H)
    as (tr & T & Hp).
  now rewrite (events_of_eq _ _ _ _ _ H T).
Qed.

(** ** Acceptances of a run *)

Section MoreCounts.
Context (E : env).





End MoreCounts.

